(** * Spack package directives ([lib/spack/spack/directives.py])

    A shallow embedding of the directive layer of Spack: the registry of
    directive kinds built by the [directive] decorator, the bootstrap of the
    accumulator dictionaries ([ensure_dicts]) and the six directive bodies
    [version], [depends_on], [extends], [provides], [patch] and [variant],
    together with the properties of the package metadata they build.

    Python dictionaries are [gmap]s, exceptions are values of [exn], and a
    function that mutates the package while it may raise is a computation in
    the state-and-exception monad [M]: the state that comes back with an
    exception is the package as the exception left it. *)

From Stdlib Require Import ZArith String Ascii List.
From stdpp Require Import base gmap strings list fin_maps.

Local Open Scope string_scope.

(** ** Python values

    The values that reach the directives as loosely typed arguments: the
    [dicts] argument of the decorator, [checksum], [default], [when] and the
    entries of [**kwargs]. *)

#[warnings="-register-all"]
Inductive pyval : Type :=
| PyNone
| PyBool (b : bool)
| PyInt (z : Z)
| PyStr (s : string)
| PyList (l : list pyval)
| PyTuple (l : list pyval).

(** [bool(v)], which is also the test of [if v:]. *)
Definition py_bool (v : pyval) : bool :=
  match v with
  | PyNone => false
  | PyBool b => b
  | PyInt z => negb (z =? 0)%Z
  | PyStr s => negb (String.eqb s "")
  | PyList l | PyTuple l => match l with [] => false | _ :: _ => true end
  end.

(** [str(type(v))], as Python 2 prints it. *)
Definition py_type_str (v : pyval) : string :=
  match v with
  | PyNone => "<type 'NoneType'>"
  | PyBool _ => "<type 'bool'>"
  | PyInt _ => "<type 'int'>"
  | PyStr _ => "<type 'str'>"
  | PyList _ => "<type 'list'>"
  | PyTuple _ => "<type 'tuple'>"
  end.

(** [isinstance(v, basestring)] *)
Definition is_basestring (v : pyval) : bool :=
  match v with PyStr _ => true | _ => false end.

(** ** Exceptions

    [SpackError] is [spack.error.SpackError]; [DirectiveError] and
    [CircularReferenceError] are the two classes at the end of the file with
    the attributes their [__init__] sets; [TypeError] and [AttributeError]
    are Python's own;
    [ResolverError] stands for whatever [spack.spec], [spack.version] and
    [spack.patch] raise, which the directives never catch. *)

Inductive exn : Type :=
| TypeError (message : string)
| AttributeError (message : string)
| SpackError (message : string)
| DirectiveError (directive message : string)
| CircularReferenceError (directive message package : string)
| ResolverError (message : string).

(** [isinstance(e, DirectiveError)]: the class and its subclass. *)
Definition is_DirectiveError (e : exn) : bool :=
  match e with
  | DirectiveError _ _ | CircularReferenceError _ _ _ => true
  | _ => false
  end.

Definition is_CircularReferenceError (e : exn) : bool :=
  match e with CircularReferenceError _ _ _ => true | _ => false end.

(** The [directive] attribute of a [DirectiveError]; other exceptions have
    none. *)
Definition exn_directive (e : exn) : option string :=
  match e with
  | DirectiveError d _ | CircularReferenceError d _ _ => Some d
  | _ => None
  end.

(** The [package] attribute, which only [CircularReferenceError] sets. *)
Definition exn_package (e : exn) : option string :=
  match e with CircularReferenceError _ _ p => Some p | _ => None end.

(** [DirectiveError.__init__(self, directive, message)]. *)
Definition new_DirectiveError (directive message : string) : exn :=
  DirectiveError directive message.

(** [CircularReferenceError.__init__(self, directive, package)]: the
    message is ["Package '%s' cannot pass itself to %s." % (package,
    directive)]. *)
Definition new_CircularReferenceError (directive package : string) : exn :=
  CircularReferenceError directive
    ("Package '" +:+ package +:+ "' cannot pass itself to " +:+ directive +:+ ".")
    package.

(** [DirectiveError(message)]: the call sites in [extends] and [variant]
    pass one argument to an [__init__] that takes two besides [self] and has
    no defaults, so evaluating the operand of [raise] raises [TypeError]
    before any [DirectiveError] exists. *)
Definition DirectiveError_one_argument (message : string) : exn :=
  TypeError "__init__() takes exactly 3 arguments (2 given)".

(** ** The state-and-exception monad *)

Definition M (St A : Type) : Type := St -> (exn + A) * St.

Definition ret {St A} (a : A) : M St A := fun s => (inr a, s).

Definition raise {St A} (e : exn) : M St A := fun s => (inl e, s).

Definition bind {St A B} (m : M St A) (k : A -> M St B) : M St B :=
  fun s =>
    match m s with
    | (inr a, s') => k a s'
    | (inl e, s') => (inl e, s')
    end.

Definition get {St} : M St St := fun s => (inr s, s).

Definition modify {St} (f : St -> St) : M St unit := fun s => (inr tt, f s).

(** The result of a call into the resolver: its value, or the message of
    the exception it raised. *)
Definition lift {St A} (r : string + A) : M St A :=
  match r with
  | inr a => ret a
  | inl msg => raise (ResolverError msg)
  end.

Declare Scope py_scope.
Delimit Scope py_scope with py.

Notation "x <- m ;; k" := (bind m (fun x => k))
  (at level 100, m at next level, right associativity) : py_scope.
Notation "m ;;; k" := (bind m (fun _ => k))
  (at level 100, right associativity) : py_scope.

(** [for x in l: body(x)] *)
Fixpoint for_each {St A} (l : list A) (body : A -> M St unit) : M St unit :=
  match l with
  | [] => ret tt
  | x :: l' => bind (body x) (fun _ => for_each l' body)
  end.

(** Did the computation return? *)
Definition succeeded {A St} (r : (exn + A) * St) : bool :=
  match r with (inr _, _) => true | (inl _, _) => false end.

(** ** The registry of directive kinds

    [directives = {}] maps the name of a directive function to the
    [directive] object that decorated it; the object keeps the names of the
    dictionaries the directive needs on a package. *)

Record directive : Type := { dicts : list pyval }.

(** [directive.__init__(self, dicts=None)]: a string becomes the 1-tuple of
    itself, a list or a tuple is kept as it is (only the type of the
    container is looked at), anything else is a [TypeError].  The record
    keeps the elements of the sequence. *)
Definition directive_init (dicts : pyval) : exn + directive :=
  if is_basestring dicts then inr {| dicts := [dicts] |}
  else
    match dicts with
    | PyList l | PyTuple l => inr {| dicts := l |}
    | _ =>
        inl (TypeError ("dicts arg must be list, tuple, or string. Found "
                        +:+ py_type_str dicts +:+ "."))
    end.

(** The registration done by [directive.__call__(self, directive_function)]:
    [directives[directive_function.__name__] = self]. *)
Definition directive_call (self : directive) (function_name : string)
    (directives : gmap string directive) : gmap string directive :=
  <[function_name := self]> directives.

(** What [directive.__init__] checks: the argument is a string, a list or a
    tuple. *)
Definition accepted_dicts (v : pyval) : bool :=
  match v with
  | PyStr _ | PyList _ | PyTuple _ => true
  | _ => false
  end.

(** What the specification asks of [required_fields]: a single name, or a
    non-empty list or tuple of names. *)
Definition names_collection (v : pyval) : bool :=
  match v with
  | PyStr _ => true
  | PyList l | PyTuple l =>
      match l with [] => false | _ :: _ => forallb is_basestring l end
  | _ => false
  end.

(** [@directive(dicts) def name(...)], with the module-level dictionary
    [directives] as the state: build the decorator, then apply it.  When
    [__init__] raises, [__call__] never runs. *)
Definition register (name : string) (dicts : pyval)
    : M (gmap string directive) unit :=
  match directive_init dicts with
  | inr self => modify (directive_call self name)
  | inl e => raise e
  end.

(** The six registrations of the module, in the order of the file. *)
Definition register_module : M (gmap string directive) unit :=
  for_each
    [ ("version", PyStr "versions");
      ("depends_on", PyStr "dependencies");
      ("extends", PyTuple [PyStr "extendees"; PyStr "dependencies"]);
      ("provides", PyStr "provided");
      ("patch", PyStr "patches");
      ("variant", PyStr "variants") ]
    (fun '(name, dicts) => register name dicts).

(** ** Bootstrap of the accumulator dictionaries

    The package handed to [ensure_dicts] is an object with dynamic
    attributes: an attribute is a dictionary (of some content [D]) or some
    other value. *)

Inductive attr (D : Type) : Type :=
| AttrDict (d : D)
| AttrOther (v : pyval).
Arguments AttrDict {D} d.
Arguments AttrOther {D} v.

Section Bootstrap.
Context {D : Type} `{Empty D}.
(** [str(pkg)], which the error message interpolates. *)
Context (pkg_str : gmap string (attr D) -> string).

Local Open Scope py_scope.

Definition hasattr (pkg : gmap string (attr D)) (d : string) : bool :=
  match pkg !! d with Some _ => true | None => false end.

Definition setattr (d : string) (v : attr D)
    (pkg : gmap string (attr D)) : gmap string (attr D) :=
  <[d := v]> pkg.

Definition getattr (d : string) : M (gmap string (attr D)) (attr D) :=
  pkg <- get ;;
  match pkg !! d with
  | Some a => ret a
  | None => raise (AttributeError d)
  end.

(** The body of the loop of [directive.ensure_dicts] for one element [d]
    of [self.dicts]; [hasattr] refuses a name that is not a string. *)
Definition ensure_dict (d : pyval) : M (gmap string (attr D)) unit :=
  match d with
  | PyStr f =>
      pkg <- get ;;
      (if negb (hasattr pkg f) then modify (setattr f (AttrDict ∅))
       else ret tt) ;;;
      a <- getattr f ;;
      match a with
      | AttrDict _ => ret tt
      | AttrOther _ =>
          pkg <- get ;;
          raise (SpackError ("Package " +:+ pkg_str pkg +:+ " has non-dict "
                             +:+ f +:+ " attribute!"))
      end
  | _ => raise (TypeError "hasattr(): attribute name must be string")
  end.

(** The outcomes of one step, gathered for case analysis. *)
Inductive ensure_dict_outcome (pkg : gmap string (attr D)) (d : pyval)
    : (exn + unit) * gmap string (attr D) -> Prop :=
| outcome_created f :
    d = PyStr f -> pkg !! f = None ->
    ensure_dict_outcome pkg d (inr tt, <[f := AttrDict ∅]> pkg)
| outcome_kept f c :
    d = PyStr f -> pkg !! f = Some (AttrDict c) ->
    ensure_dict_outcome pkg d (inr tt, pkg)
| outcome_non_dict f v msg :
    d = PyStr f -> pkg !! f = Some (AttrOther v) ->
    ensure_dict_outcome pkg d (inl (SpackError msg), pkg)
| outcome_not_a_name msg :
    is_basestring d = false ->
    ensure_dict_outcome pkg d (inl (TypeError msg), pkg).

(** [directive.ensure_dicts(self, pkg)] *)
Definition directive_ensure_dicts (self : directive)
    : M (gmap string (attr D)) unit :=
  for_each (dicts self) ensure_dict.

(** The module-level [ensure_dicts(pkg)], over [directives.items()]. *)
Definition ensure_dicts (directives : gmap string directive)
    : M (gmap string (attr D)) unit :=
  for_each (map_to_list directives)
    (fun '(name, d) => directive_ensure_dicts d).

(** The module-level loop is one loop over the names of all
    directives. *)
Definition required_dicts (directives : gmap string directive)
    : list pyval :=
  concat (map (fun x => dicts (snd x)) (map_to_list directives)).

(** The function [wrapped] that [directive.__call__] returns, given the
    package object found in the caller's scope, the name of the calling
    module and the decorated function applied to its arguments. *)
Definition wrapped (self : directive) (calling_module_name : string)
    (directive_function : M (gmap string (attr D)) unit)
    : M (gmap string (attr D)) unit :=
  directive_ensure_dicts self ;;;
  modify (setattr "name" (AttrOther (PyStr calling_module_name))) ;;;
  directive_function.

End Bootstrap.

(** ** Strings and regular expressions *)

(** The characters [str.strip()] removes: space, tab, newline, vertical tab,
    form feed and carriage return. *)
Definition is_space (c : ascii) : bool :=
  match N_of_ascii c with
  | 32%N | 9%N | 10%N | 11%N | 12%N | 13%N => true
  | _ => false
  end.

Fixpoint lstrip (s : string) : string :=
  match s with
  | String c r => if is_space c then lstrip r else s
  | EmptyString => EmptyString
  end.

Fixpoint rstrip (s : string) : string :=
  match s with
  | EmptyString => EmptyString
  | String c r =>
      match rstrip r with
      | EmptyString => if is_space c then EmptyString else String c EmptyString
      | r' => String c r'
      end
  end.

(** [s.strip()] *)
Definition strip (s : string) : string := rstrip (lstrip s).

(** Does the string start, or end, with a character [strip] removes? *)
Definition starts_with_space (s : string) : bool :=
  match s with
  | String c _ => is_space c
  | EmptyString => false
  end.

Fixpoint ends_with_space (s : string) : bool :=
  match s with
  | EmptyString => false
  | String c EmptyString => is_space c
  | String _ r => ends_with_space r
  end.

Fixpoint prefixes (s : string) : list string :=
  EmptyString ::
    match s with
    | EmptyString => []
    | String c r => map (String c) (prefixes r)
    end.

(** [re.match(pattern, s)] is not [None], for a pattern given by the set of
    strings it denotes: [re.match] anchors the match at the start of [s]
    and nowhere else, so it succeeds as soon as some prefix of [s] is in
    the set. *)
Definition re_match (pattern : string -> bool) (s : string) : bool :=
  existsb pattern (prefixes s).

(** ** The resolver

    What [directives.py] imports from [spack.spec], [spack.version] and
    [spack.patch] and calls without implementing: the constructors
    [Version(...)], [Spec(...)] and [Patch(...)], the parsers
    [parse_anonymous_spec] and [spack.spec.parse], the [name] attribute of a
    spec, the in-place [constrain] method and the constant
    [spack.spec.identifier_re].  A call returns its value, or the message
    of the exception it raised.  [constrain self other] returns [self] as
    the call left it, together with the exception if it raised one. *)

Class Resolver : Type := {
  SpecT : Type;
  VersionT : Type;
  PatchT : Type;
  SpecT_eq_dec :: EqDecision SpecT;
  SpecT_countable :: Countable SpecT;
  VersionT_eq_dec :: EqDecision VersionT;
  VersionT_countable :: Countable VersionT;
  Version : string -> string + VersionT;
  Spec : string -> string + SpecT;
  Patch : string -> string -> Z -> string + PatchT;
  parse_anonymous_spec : pyval -> string -> string + SpecT;
  parse : string -> string + list SpecT;
  spec_name : SpecT -> string;
  constrain : SpecT -> SpecT -> SpecT * option string;
  identifier_re : string -> bool;
}.

(** [spack.variant.Variant(default, description)] *)
Record Variant : Type := {
  variant_default : bool;
  variant_description : string;
}.

(** [bool(d)] for a dictionary: it is true when the dictionary has
    entries. *)
Definition dict_bool `{Countable K} {V} (d : gmap K V) : bool :=
  negb (Nat.eqb (size d) 0).

(** [d.setdefault(k, v)]: the dictionary afterwards. *)
Definition setdefault `{Countable K} {V} (k : K) (v : V) (d : gmap K V)
    : gmap K V :=
  match d !! k with
  | Some _ => d
  | None => <[k := v]> d
  end.

Section Directives.
Context `{R : Resolver}.

(** ** The package under definition

    The object the directives receive as [pkg], after [wrapped] has run
    [ensure_dicts] and set [pkg.name]: the six dictionaries exist. *)

Record Package : Type := {
  name : string;
  versions : gmap VersionT (gmap string pyval);
  dependencies : gmap string (gmap SpecT SpecT);
  extendees : gmap string (SpecT * gmap string pyval);
  provided : gmap SpecT SpecT;
  patches : gmap SpecT (list PatchT);
  variants : gmap string Variant;
}.

Definition set_versions (f : gmap VersionT (gmap string pyval) ->
                             gmap VersionT (gmap string pyval))
    (pkg : Package) : Package :=
  {| name := name pkg; versions := f (versions pkg);
     dependencies := dependencies pkg; extendees := extendees pkg;
     provided := provided pkg; patches := patches pkg;
     variants := variants pkg |}.

Definition set_dependencies (f : gmap string (gmap SpecT SpecT) ->
                                 gmap string (gmap SpecT SpecT))
    (pkg : Package) : Package :=
  {| name := name pkg; versions := versions pkg;
     dependencies := f (dependencies pkg); extendees := extendees pkg;
     provided := provided pkg; patches := patches pkg;
     variants := variants pkg |}.

Definition set_extendees (f : gmap string (SpecT * gmap string pyval) ->
                              gmap string (SpecT * gmap string pyval))
    (pkg : Package) : Package :=
  {| name := name pkg; versions := versions pkg;
     dependencies := dependencies pkg; extendees := f (extendees pkg);
     provided := provided pkg; patches := patches pkg;
     variants := variants pkg |}.

Definition set_provided (f : gmap SpecT SpecT -> gmap SpecT SpecT)
    (pkg : Package) : Package :=
  {| name := name pkg; versions := versions pkg;
     dependencies := dependencies pkg; extendees := extendees pkg;
     provided := f (provided pkg); patches := patches pkg;
     variants := variants pkg |}.

Definition set_patches (f : gmap SpecT (list PatchT) ->
                            gmap SpecT (list PatchT))
    (pkg : Package) : Package :=
  {| name := name pkg; versions := versions pkg;
     dependencies := dependencies pkg; extendees := extendees pkg;
     provided := provided pkg; patches := f (patches pkg);
     variants := variants pkg |}.

Definition set_variants (f : gmap string Variant -> gmap string Variant)
    (pkg : Package) : Package :=
  {| name := name pkg; versions := versions pkg;
     dependencies := dependencies pkg; extendees := extendees pkg;
     provided := provided pkg; patches := patches pkg;
     variants := f (variants pkg) |}.

(** A package named [n] right after the bootstrap: six empty
    dictionaries. *)
Definition new_package (n : string) : Package :=
  {| name := n; versions := ∅; dependencies := ∅; extendees := ∅;
     provided := ∅; patches := ∅; variants := ∅ |}.

Local Open Scope py_scope.

(** ** The directives *)

(** [version(pkg, ver, checksum=None, **kwargs)] *)
Definition version (ver : string) (checksum : pyval)
    (kwargs : gmap string pyval) : M Package unit :=
  let kwargs :=
    if py_bool checksum then <["md5" := checksum]> kwargs else kwargs in
  v <- lift (Version ver) ;;
  modify (set_versions (insert v kwargs)).

(** [_depends_on(pkg, spec, when=None)].  [conditions] is the dictionary
    stored under [dep_spec.name], not a copy of it: what is written to
    [conditions] is written to [pkg.dependencies]. *)
Definition _depends_on (spec : string) (when : pyval) : M Package unit :=
  pkg <- get ;;
  let when := match when with PyNone => PyStr (name pkg) | _ => when end in
  when_spec <- lift (parse_anonymous_spec when (name pkg)) ;;
  dep_spec <- lift (Spec spec) ;;
  if decide (name pkg = spec_name dep_spec) then
    raise (new_CircularReferenceError "depends_on" (name pkg))
  else
    modify (set_dependencies (setdefault (spec_name dep_spec) ∅)) ;;;
    pkg <- get ;;
    let conditions :=
      default ∅ (dependencies pkg !! spec_name dep_spec) in
    match conditions !! when_spec with
    | Some stored =>
        let '(stored', raised) := constrain stored dep_spec in
        modify (set_dependencies
                  (insert (spec_name dep_spec)
                     (<[when_spec := stored']> conditions))) ;;;
        match raised with
        | Some msg => raise (ResolverError msg)
        | None => ret tt
        end
    | None =>
        modify (set_dependencies
                  (insert (spec_name dep_spec)
                     (<[when_spec := dep_spec]> conditions)))
    end.

(** [depends_on(pkg, spec, when=None)] *)
Definition depends_on (spec : string) (when : pyval) : M Package unit :=
  _depends_on spec when.

(** [extends(pkg, spec, **kwargs)] *)
Definition extends (spec : string) (kwargs : gmap string pyval)
    : M Package unit :=
  pkg <- get ;;
  if dict_bool (extendees pkg) then
    raise (DirectiveError_one_argument
             "Packages can extend at most one other package.")
  else
    let when := default (PyStr (name pkg)) (kwargs !! "when") in
    let kwargs := delete "when" kwargs in
    _depends_on spec when ;;;
    extendee <- lift (Spec spec) ;;
    modify (set_extendees (insert spec (extendee, kwargs))).

(** The body of the inner loop of [provides]. *)
Definition provides_body (provider_spec provided_spec : SpecT)
    : M Package unit :=
  pkg <- get ;;
  if decide (name pkg = spec_name provided_spec) then
    raise (new_CircularReferenceError "depends_on" (name pkg))
  else
    modify (set_provided (insert provided_spec provider_spec)).

(** [provides(pkg, *specs, **kwargs)] *)
Definition provides (specs : list string) (kwargs : gmap string pyval)
    : M Package unit :=
  pkg <- get ;;
  let spec_string := default (PyStr (name pkg)) (kwargs !! "when") in
  provider_spec <- lift (parse_anonymous_spec spec_string (name pkg)) ;;
  for_each specs (fun string =>
    provided_specs <- lift (parse string) ;;
    for_each provided_specs (provides_body provider_spec)).

(** [patch(pkg, url_or_filename, level=1, when=None)]: [setdefault] runs
    before the [Patch] is built. *)
Definition patch (url_or_filename : string) (level : Z) (when : pyval)
    : M Package unit :=
  pkg <- get ;;
  let when := match when with PyNone => PyStr (name pkg) | _ => when end in
  when_spec <- lift (parse_anonymous_spec when (name pkg)) ;;
  modify (set_patches (setdefault when_spec [])) ;;;
  p <- lift (Patch (name pkg) url_or_filename level) ;;
  modify (set_patches (fun d =>
    <[when_spec := (default [] (d !! when_spec) ++ [p])%list]> d)).

(** [variant(pkg, name, default=False, description="")]; the description
    is a [str], on which [str(...)] is the identity. *)
Definition variant (variant_name : string) (default_value : pyval)
    (description : string) : M Package unit :=
  let default_value := py_bool default_value in
  let description := strip description in
  pkg <- get ;;
  if negb (re_match identifier_re variant_name) then
    raise (DirectiveError_one_argument
             ("Invalid variant name in " +:+ name pkg +:+ ": '"
              +:+ variant_name +:+ "'"))
  else
    modify (set_variants
              (insert variant_name
                 {| variant_default := default_value;
                    variant_description := description |})).

(** A directive call as it stands in a package definition. *)
Inductive call : Type :=
| call_version (ver : string) (checksum : pyval)
    (kwargs : gmap string pyval)
| call_depends_on (spec : string) (when : pyval)
| call_extends (spec : string) (kwargs : gmap string pyval)
| call_provides (specs : list string) (kwargs : gmap string pyval)
| call_patch (url_or_filename : string) (level : Z) (when : pyval)
| call_variant (variant_name : string) (default_value : pyval)
    (description : string).

Definition run (c : call) : M Package unit :=
  match c with
  | call_version ver checksum kwargs => version ver checksum kwargs
  | call_depends_on spec when => depends_on spec when
  | call_extends spec kwargs => extends spec kwargs
  | call_provides specs kwargs => provides specs kwargs
  | call_patch url_or_filename level when =>
      patch url_or_filename level when
  | call_variant variant_name default_value description =>
      variant variant_name default_value description
  end.

(** The name the author of the package wrote for the call. *)
Definition call_name (c : call) : string :=
  match c with
  | call_version _ _ _ => "version"
  | call_depends_on _ _ => "depends_on"
  | call_extends _ _ => "extends"
  | call_provides _ _ => "provides"
  | call_patch _ _ _ => "patch"
  | call_variant _ _ _ => "variant"
  end.

(** ** What the properties speak of *)

(** [when], once [None] has been replaced by the name of the package. *)
Definition resolve_when (pkg : Package) (when : pyval) : pyval :=
  match when with PyNone => PyStr (name pkg) | _ => when end.

(** [pkg.dependencies[n]], empty when [n] has no entry yet. *)
Definition conditions_of (pkg : Package) (n : string) : gmap SpecT SpecT :=
  default ∅ (dependencies pkg !! n).

(** The [when] that [extends] takes from its keyword arguments. *)
Definition extends_when (pkg : Package) (kwargs : gmap string pyval)
    : pyval :=
  default (PyStr (name pkg)) (kwargs !! "when").

(** What a loop of [provides] may have written: entries of
    [pkg.provided], under specs that are not named as the package. *)
Definition provided_grown (pkg pkg' : Package) : Prop :=
  exists provided',
    pkg' = set_provided (fun _ => provided') pkg /\
    forall k, k ∈ dom provided' ->
              k ∈ dom (provided pkg) \/ spec_name k <> name pkg.

(** How a package may differ after a directive call, whether the call
    returned or raised. *)
Definition evolves (pkg pkg' : Package) : Prop :=
  name pkg' = name pkg /\
  (forall n, n ∈ dom (dependencies pkg') ->
             n ∈ dom (dependencies pkg) \/ n <> name pkg) /\
  (forall k, k ∈ dom (provided pkg') ->
             k ∈ dom (provided pkg) \/ spec_name k <> name pkg) /\
  (extendees pkg' = extendees pkg \/
   extendees pkg = ∅ /\ size (extendees pkg') = 1).

(** No dependency and no provided spec is named as the package. *)
Definition self_free (pkg : Package) : Prop :=
  (name pkg ∉ dom (dependencies pkg)) /\
  (forall k, k ∈ dom (provided pkg) -> spec_name k <> name pkg).

(** A package definition: directive calls in the order of the source,
    up to the first that raises. *)
Definition define (n : string) (calls : list call)
    : (exn + unit) * Package :=
  for_each calls run (new_package n).

(** The body of the outer loop of [provides]. *)
Definition provides_string (provider_spec : SpecT) (string : string)
    : M Package unit :=
  bind (lift (parse string))
    (fun provided_specs =>
       for_each provided_specs (provides_body provider_spec)).

(** [pkg.patches[k]], empty when [k] has no entry yet. *)
Definition patches_of (pkg : Package) (k : SpecT) : list PatchT :=
  default [] (patches pkg !! k).

(** Nothing that was declared is gone: every key of every dictionary is
    still there, every condition of every dependency too, and the patches
    of a condition are still the first ones of its list, in their order. *)
Definition grows (pkg pkg' : Package) : Prop :=
  name pkg' = name pkg /\
  dom (versions pkg) ⊆ dom (versions pkg') /\
  dom (dependencies pkg) ⊆ dom (dependencies pkg') /\
  (forall n, dom (conditions_of pkg n) ⊆ dom (conditions_of pkg' n)) /\
  dom (extendees pkg) ⊆ dom (extendees pkg') /\
  dom (provided pkg) ⊆ dom (provided pkg') /\
  dom (patches pkg) ⊆ dom (patches pkg') /\
  (forall k, exists more, patches_of pkg' k = (patches_of pkg k ++ more)%list) /\
  dom (variants pkg) ⊆ dom (variants pkg').

End Directives.

(** ** A concrete resolver

    A small resolver on which the directives run on concrete inputs.  A
    spec is the name it starts with and the constraints written after the
    name, kept as text; constraining a spec by another of its name collects
    the constraints of both. *)

Module Concrete.

Definition is_word (c : ascii) : bool :=
  let n := N_of_ascii c in
  ((48 <=? n) && (n <=? 57) || (65 <=? n) && (n <=? 90)
   || (97 <=? n) && (n <=? 122) || (n =? 95))%N.

Fixpoint all_chars (p : ascii -> bool) (s : string) : bool :=
  match s with
  | EmptyString => true
  | String c r => p c && all_chars p r
  end.

(** Modelled from the spec: the constant [spack.spec.identifier_re], "the
    identifier grammar used elsewhere for package/spec names", which
    [spack/spec.py] sets to [r'\w[\w-]*']; this is the set of strings the
    pattern denotes. *)
Definition identifier_re (s : string) : bool :=
  match s with
  | EmptyString => false
  | String c r =>
      is_word c && all_chars (fun c => is_word c || Ascii.eqb c "-") r
  end.

(** The longest prefix made of the characters of a name, and the rest. *)
Fixpoint span_name (s : string) : string * string :=
  match s with
  | EmptyString => (EmptyString, EmptyString)
  | String c r =>
      if is_word c || Ascii.eqb c "-" || Ascii.eqb c "." then
        let '(n, rest) := span_name r in (String c n, rest)
      else (EmptyString, s)
  end.

(** Modelled from the spec: the constructor [Spec(string)] of the external
    resolver, which parses a string into a constraint that has a name. *)
Definition Spec (s : string) : string + string * list string :=
  let '(n, rest) := span_name s in
  if negb (re_match identifier_re n) then inl ("Invalid spec: " +:+ s)
  else inr (n, if String.eqb rest "" then [] else [rest]).

(** Modelled from the spec: [spack.spec.parse], which turns one string
    into a list of specs. *)
Definition parse (s : string) : string + list (string * list string) :=
  match Spec s with
  | inr x => inr [x]
  | inl e => inl e
  end.

(** Modelled from the spec: [parse_anonymous_spec(spec_like, pkg_name)],
    the condition resolver; the name of the package may be left out of
    the condition, and a condition on another package is refused. *)
Definition parse_anonymous_spec (spec_like : pyval) (pkg_name : string)
    : string + string * list string :=
  match spec_like with
  | PyStr s =>
      let anon :=
        match Spec s with
        | inr a => inr a
        | inl _ => Spec (pkg_name +:+ s)
        end in
      match anon with
      | inr a =>
          if String.eqb (fst a) pkg_name then inr a
          else inl ("Spec name '" +:+ fst a
                    +:+ "' must match package name '" +:+ pkg_name +:+ "'")
      | inl e => inl e
      end
  | _ => inl "spec must be Spec or spec string."
  end.

(** Modelled from the spec: the intersection of two constraints, done in
    place on the first; two constraints on different names have none. *)
Definition constrain (self other : string * list string)
    : (string * list string) * option string :=
  if String.eqb (fst self) (fst other) then
    ((fst self, (snd self ++ snd other)%list), None)
  else (self, Some ("Unsatisfiable spec name: " +:+ fst other))%string.

(** Modelled from the spec: the constructor [Version(string)]. *)
Definition Version (s : string) : string + string :=
  if String.eqb s "" then inl "Bad characters in version string: "
  else inr s.

(** Modelled from the spec: the constructor [Patch(pkg_name, path_or_url,
    level)]. *)
Definition Patch (pkg_name path_or_url : string) (level : Z)
    : string + string * string * Z :=
  if (level <? 0)%Z then
    inl "Patch level needs to be a non-negative integer."
  else inr (pkg_name, path_or_url, level).

End Concrete.

#[export] Instance concrete_resolver : Resolver := {|
  SpecT := string * list string;
  VersionT := string;
  PatchT := string * string * Z;
  Version := Concrete.Version;
  Spec := Concrete.Spec;
  Patch := Concrete.Patch;
  parse_anonymous_spec := Concrete.parse_anonymous_spec;
  parse := Concrete.parse;
  spec_name := fst;
  constrain := Concrete.constrain;
  identifier_re := Concrete.identifier_re;
|}.

(** The package [py-numpy] once it has declared [extends("python")]. *)
Definition numpy : @Package concrete_resolver :=
  set_extendees (insert "python" (("python", []), delete "when" ∅))
    (set_dependencies
       (insert "python"
          (<[("py-numpy", []) := ("python", [])]>
             (conditions_of (new_package "py-numpy") "python")))
       (new_package "py-numpy")).

(** * Properties *)

(** ** The monad *)

Ltac unfold_monad :=
  unfold bind, ret, raise, get, modify, lift in *.

Ltac run_monad := repeat (progress (simpl; unfold_monad)).

Lemma for_each_app {St A} (l1 l2 : list A) (body : A -> M St unit) s :
  for_each (l1 ++ l2) body s
  = bind (for_each l1 body) (fun _ => for_each l2 body) s.
Proof.
  revert s. induction l1 as [|x l1 IH]; intros s; simpl.
  - reflexivity.
  - unfold bind in *. destruct (body x s) as [[e|[]] s1]; [reflexivity|].
    apply IH.
Qed.

Lemma for_each_nested {St A B} (l : list A) (g : A -> list B)
    (body : B -> M St unit) s :
  for_each l (fun x => for_each (g x) body) s
  = for_each (concat (map g l)) body s.
Proof.
  revert s. induction l as [|x l IH]; intros s; simpl; [reflexivity|].
  rewrite for_each_app. unfold bind.
  destruct (for_each (g x) body s) as [[e|[]] s1]; [reflexivity|apply IH].
Qed.

Lemma for_each_ext {St A} (l : list A) (f g : A -> M St unit) s :
  (forall x s, f x s = g x s) -> for_each l f s = for_each l g s.
Proof.
  intros Hfg. revert s. induction l as [|x l IH]; intros s; simpl.
  - reflexivity.
  - unfold bind. rewrite Hfg. destruct (g x s) as [[e|[]] s1]; auto.
Qed.

(** ** Registration *)

Lemma register_accepted name v directives :
  accepted_dicts v = true ->
  exists self,
    directive_init v = inr self /\
    register name v directives = (inr tt, <[name := self]> directives).
Proof.
  intros Hv. unfold register.
  destruct v; try discriminate Hv; simpl; eexists; split; reflexivity.
Qed.

Lemma register_refused name v directives :
  accepted_dicts v = false ->
  register name v directives
  = (inl (TypeError ("dicts arg must be list, tuple, or string. Found "
                     +:+ py_type_str v +:+ ".")), directives).
Proof.
  intros Hv. unfold register.
  destruct v; try discriminate Hv; reflexivity.
Qed.

(** C5, as amended: registering a directive kind fails, with a [TypeError]
    and a registry left as it was, exactly when the [dicts] argument is
    neither a string nor a list nor a tuple; every list or tuple, the empty
    one and one whose elements are not names included, is accepted and
    registered under the name of the directive. *)
Theorem register_checks_container_type name v directives :
  (accepted_dicts v = false ->
     exists msg,
       register name v directives = (inl (TypeError msg), directives)) /\
  (accepted_dicts v = true ->
     exists self,
       register name v directives = (inr tt, <[name := self]> directives) /\
       match v with
       | PyList l | PyTuple l => dicts self = l
       | _ => dicts self = [v]
       end).
Proof.
  split; intros Hv.
  - eexists. apply register_refused, Hv.
  - destruct (register_accepted name v directives Hv) as (self & Hinit & Hreg).
    exists self. split; [exact Hreg|].
    destruct v; try discriminate Hv; simpl in Hinit;
      injection Hinit as <-; reflexivity.
Qed.

Lemma register_checks_container_type_witness :
  (exists msg,
     register "version" (PyInt 3) ∅ = (inl (TypeError msg), ∅)) /\
  (exists self,
     register "version" (PyList []) ∅ = (inr tt, <["version" := self]> ∅) /\
     dicts self = []).
Proof.
  split.
  - apply (register_checks_container_type "version" (PyInt 3) ∅). reflexivity.
  - apply (register_checks_container_type "version" (PyList []) ∅).
    reflexivity.
Defined.

(** C5, as stated, fails: the empty list is not a non-empty collection of
    names, and registering with it succeeds and extends the registry. *)
Lemma register_accepts_empty_collection :
  names_collection (PyList []) = false /\
  register "version" (PyList []) ∅
  = (inr tt, {[ "version" := {| dicts := [] |} ]}).
Proof. split; reflexivity. Qed.

(** A list whose elements are not strings is registered too. *)
Lemma register_accepts_non_names :
  names_collection (PyList [PyInt 1]) = false /\
  register "version" (PyList [PyInt 1]) ∅
  = (inr tt, {[ "version" := {| dicts := [PyInt 1] |} ]}).
Proof. split; reflexivity. Qed.

(** The module's own registrations all go through. *)
Lemma register_module_succeeds :
  exists directives,
    register_module ∅ = (inr tt, directives) /\
    dicts <$> directives !! "extends"
    = Some [PyStr "extendees"; PyStr "dependencies"].
Proof. eexists. split; [reflexivity|]. vm_compute. reflexivity. Qed.

(** ** Bootstrap *)

Section BootstrapProperties.
Context {D : Type} `{Empty D}.
Context (pkg_str : gmap string (attr D) -> string).

Implicit Types (pkg : gmap string (attr D)) (d : pyval) (f : string).

(** The four ways through the body of the loop. *)
Lemma ensure_dict_absent pkg f :
  pkg !! f = None ->
  ensure_dict pkg_str (PyStr f) pkg = (inr tt, <[f := AttrDict ∅]> pkg).
Proof.
  intros Hf. unfold ensure_dict, getattr, hasattr, setattr.
  unfold_monad. rewrite Hf. simpl. by rewrite lookup_insert_eq.
Qed.

Lemma ensure_dict_dict pkg f c :
  pkg !! f = Some (AttrDict c) ->
  ensure_dict pkg_str (PyStr f) pkg = (inr tt, pkg).
Proof.
  intros Hf. unfold ensure_dict, getattr, hasattr, setattr.
  unfold_monad. rewrite Hf. simpl. by rewrite Hf.
Qed.

Lemma ensure_dict_other pkg f v :
  pkg !! f = Some (AttrOther v) ->
  ensure_dict pkg_str (PyStr f) pkg
  = (inl (SpackError ("Package " +:+ pkg_str pkg +:+ " has non-dict "
                      +:+ f +:+ " attribute!")), pkg).
Proof.
  intros Hf. unfold ensure_dict, getattr, hasattr, setattr.
  unfold_monad. rewrite Hf. simpl. by rewrite Hf.
Qed.

Lemma ensure_dict_not_a_name pkg d :
  is_basestring d = false ->
  ensure_dict pkg_str d pkg
  = (inl (TypeError "hasattr(): attribute name must be string"), pkg).
Proof. intros Hd. destruct d; try discriminate Hd; reflexivity. Qed.

Lemma ensure_dict_cases pkg d :
  ensure_dict_outcome pkg d (ensure_dict pkg_str d pkg).
Proof.
  destruct (is_basestring d) eqn:Hd.
  - destruct d as [| | |f| |]; try discriminate Hd.
    destruct (pkg !! f) as [[c|v]|] eqn:Hf.
    + rewrite (ensure_dict_dict _ _ _ Hf). by eapply outcome_kept.
    + rewrite (ensure_dict_other _ _ _ Hf). by eapply outcome_non_dict.
    + rewrite (ensure_dict_absent _ _ Hf). by eapply outcome_created.
  - rewrite (ensure_dict_not_a_name _ _ Hd). by apply outcome_not_a_name.
Qed.

(** An attribute that exists is never touched: the package only grows. *)
Lemma ensure_dict_grows pkg d r pkg' :
  ensure_dict pkg_str d pkg = (r, pkg') -> pkg ⊆ pkg'.
Proof.
  intros Hrun. pose proof (ensure_dict_cases pkg d) as Hc.
  rewrite Hrun in Hc. inversion Hc; subst; try reflexivity.
  by apply insert_subseteq.
Qed.

Lemma for_each_ensure_dict_grows l pkg r pkg' :
  for_each l (ensure_dict pkg_str) pkg = (r, pkg') -> pkg ⊆ pkg'.
Proof.
  revert pkg. induction l as [|d l IH]; intros pkg Hrun; simpl in Hrun.
  - unfold ret in Hrun. by injection Hrun as _ <-.
  - unfold bind in Hrun.
    destruct (ensure_dict pkg_str d pkg) as [[e|[]] pkg1] eqn:Hd.
    + injection Hrun as _ <-. by eapply ensure_dict_grows.
    + etrans; [by eapply ensure_dict_grows|by apply IH].
Qed.

(** On any package that contains the one a step produced, the step
    changes nothing, and returns exactly if it returned. *)
Lemma ensure_dict_stable pkg d r pkg' pkg'' :
  ensure_dict pkg_str d pkg = (r, pkg') -> pkg' ⊆ pkg'' ->
  snd (ensure_dict pkg_str d pkg'') = pkg'' /\
  succeeded (ensure_dict pkg_str d pkg'') = succeeded (r, pkg').
Proof.
  intros Hrun Hsub. pose proof (ensure_dict_cases pkg d) as Hc.
  rewrite Hrun in Hc. inversion Hc; subst.
  - assert (pkg'' !! f = Some (AttrDict ∅)) as Hf.
    { eapply lookup_weaken; [apply lookup_insert_eq|done]. }
    by rewrite (ensure_dict_dict _ _ _ Hf).
  - assert (pkg'' !! f = Some (AttrDict c)) as Hf
      by (by eapply lookup_weaken).
    by rewrite (ensure_dict_dict _ _ _ Hf).
  - assert (pkg'' !! f = Some (AttrOther v)) as Hf
      by (by eapply lookup_weaken).
    by rewrite (ensure_dict_other _ _ _ Hf).
  - by rewrite ensure_dict_not_a_name.
Qed.

Lemma for_each_ensure_dict_stable l pkg r pkg' pkg'' :
  for_each l (ensure_dict pkg_str) pkg = (r, pkg') -> pkg' ⊆ pkg'' ->
  snd (for_each l (ensure_dict pkg_str) pkg'') = pkg'' /\
  succeeded (for_each l (ensure_dict pkg_str) pkg'') = succeeded (r, pkg').
Proof.
  revert pkg. induction l as [|d l IH]; intros pkg Hrun Hsub.
  - simpl in *. unfold ret in *. by injection Hrun as <- _.
  - simpl in *. unfold bind in *.
    destruct (ensure_dict pkg_str d pkg) as [[e|[]] pkg1] eqn:Hd.
    + injection Hrun as <- <-.
      destruct (ensure_dict_stable _ _ _ _ _ Hd Hsub) as [Hst Hok].
      by destruct (ensure_dict pkg_str d pkg'') as [[e'|[]] s'].
    + assert (pkg1 ⊆ pkg'') as Hsub1.
      { etrans; [by eapply for_each_ensure_dict_grows|done]. }
      destruct (ensure_dict_stable _ _ _ _ _ Hd Hsub1) as [Hst Hok].
      destruct (ensure_dict pkg_str d pkg'') as [[e'|[]] s'];
        simpl in Hst, Hok; [discriminate Hok|subst s'].
      by eapply IH.
Qed.

Lemma ensure_dicts_flat directives pkg :
  ensure_dicts pkg_str directives pkg
  = for_each (required_dicts directives) (ensure_dict pkg_str) pkg.
Proof.
  unfold ensure_dicts, required_dicts, directive_ensure_dicts.
  rewrite <- for_each_nested. apply for_each_ext. by intros [??] ?.
Qed.

Lemma elem_of_required_dicts directives name self d :
  directives !! name = Some self -> d ∈ dicts self ->
  d ∈ required_dicts directives.
Proof.
  intros Hd Hin. unfold required_dicts.
  apply list_elem_of_In, in_concat. exists (dicts self).
  split; [|by apply list_elem_of_In].
  apply in_map_iff. exists (name, self). split; [done|].
  by apply list_elem_of_In, elem_of_map_to_list.
Qed.

(** A required name bound to something that is not a dictionary stops
    the loop, with an exception that is no [DirectiveError]; it is the
    [SpackError] of [ensure_dicts] when all the names before it are
    strings. *)
Lemma for_each_ensure_dict_non_dict l pkg f v :
  PyStr f ∈ l -> pkg !! f = Some (AttrOther v) ->
  exists e pkg',
    for_each l (ensure_dict pkg_str) pkg = (inl e, pkg') /\
    is_DirectiveError e = false /\
    (forallb is_basestring l = true -> exists msg, e = SpackError msg).
Proof.
  revert pkg. induction l as [|d l IH]; intros pkg Hin Hf.
  - by apply elem_of_nil in Hin.
  - simpl. unfold bind.
    pose proof (ensure_dict_cases pkg d) as Hc.
    destruct (ensure_dict pkg_str d pkg) as [[e|[]] pkg1] eqn:Hd.
    + exists e, pkg1. split; [done|].
      inversion Hc; subst; (split; [done|]); intros Hall.
      * by eexists.
      * simpl in Hall.
        match goal with
        | Hb : is_basestring _ = false |- _ => rewrite Hb in Hall
        end.
        discriminate Hall.
    + assert (d <> PyStr f) as Hne.
      { intros ->. rewrite (ensure_dict_other _ _ _ Hf) in Hd.
        discriminate Hd. }
      apply elem_of_cons in Hin as [Heq|Hin]; [congruence|].
      assert (pkg1 !! f = Some (AttrOther v)) as Hf1.
      { eapply lookup_weaken; [exact Hf|by eapply ensure_dict_grows]. }
      destruct (IH pkg1 Hin Hf1) as (e & pkg' & Hrun & Hne' & Hmsg).
      exists e, pkg'. split; [done|]. split; [done|].
      intros Hall. simpl in Hall. apply andb_true_iff in Hall as [_ Hall].
      by apply Hmsg.
Qed.

(** C9: [ensure_dicts] is idempotent: run again on the package a first
    run left, it changes nothing and returns if the first run returned;
    and on a package where a name required by a registered directive is
    bound to something that is not a dictionary it raises an exception
    that is no [DirectiveError]: the [SpackError] of [ensure_dicts] when
    the registered names are all strings. *)
Theorem ensure_dicts_idempotent directives pkg :
  (let first := ensure_dicts pkg_str directives pkg in
   let second := ensure_dicts pkg_str directives (snd first) in
   snd second = snd first /\ succeeded second = succeeded first) /\
  (forall name self i f v,
     directives !! name = Some self ->
     dicts self !! i = Some (PyStr f) ->
     pkg !! f = Some (AttrOther v) ->
     exists e pkg',
       ensure_dicts pkg_str directives pkg = (inl e, pkg') /\
       is_DirectiveError e = false /\
       (forallb is_basestring (required_dicts directives) = true ->
        exists msg, e = SpackError msg)).
Proof.
  split.
  - cbv zeta. rewrite !ensure_dicts_flat.
    destruct (for_each (required_dicts directives) (ensure_dict pkg_str) pkg)
      as [r pkg'] eqn:Hrun.
    by eapply for_each_ensure_dict_stable.
  - intros name self i f v Hself Hi Hf.
    rewrite ensure_dicts_flat.
    eapply for_each_ensure_dict_non_dict; [|exact Hf].
    eapply elem_of_required_dicts; [exact Hself|].
    by eapply list_elem_of_lookup_2.
Qed.

End BootstrapProperties.

Lemma ensure_dicts_idempotent_witness :
  exists e pkg',
    ensure_dicts (D := gmap string pyval) (fun _ => "pkg")
      (snd (register_module ∅)) {[ "versions" := AttrOther (PyInt 1) ]}
    = (inl e, pkg') /\
    is_DirectiveError e = false.
Proof.
  destruct (ensure_dicts_idempotent (D := gmap string pyval) (fun _ => "pkg")
              (snd (register_module ∅))
              {[ "versions" := AttrOther (PyInt 1) ]}) as [_ Hfail].
  destruct (Hfail "version" {| dicts := [PyStr "versions"] |} 0%nat
              "versions" (PyInt 1))
    as (e & pkg' & Hrun & Hne & _).
  - vm_compute. reflexivity.
  - reflexivity.
  - vm_compute. reflexivity.
  - exists e, pkg'. split; assumption.
Defined.

(** On a fresh object the module's registry creates the six dictionaries. *)
Lemma ensure_dicts_bootstrap :
  let pkg := ensure_dicts (D := gmap string pyval) (fun _ => "pkg")
               (snd (register_module ∅)) ∅ in
  fst pkg = inr tt /\
  forallb (hasattr (snd pkg))
    ["versions"; "dependencies"; "extendees"; "provided"; "patches";
     "variants"] = true.
Proof. split; vm_compute; reflexivity. Qed.

(** ** Dictionaries *)

Lemma filter_none {A} (P : A -> Prop) `{forall x, Decision (P x)} (l : list A) :
  (forall x, x ∈ l -> ~ P x) -> filter P l = [].
Proof.
  induction l as [|x l IH]; intros Hl; [done|].
  rewrite filter_cons_False by (apply Hl; left).
  apply IH. intros y Hy. apply Hl. by right.
Qed.

(** A key that is bound has exactly one entry among the items. *)
Lemma dict_one_entry `{Countable K} {V} (d : gmap K V) (k : K) (v : V) :
  d !! k = Some v ->
  filter (fun kv => kv.1 = k) (map_to_list d) = [(k, v)].
Proof.
  intros Hk. apply Permutation_singleton_r.
  rewrite <- (insert_delete_id d k v Hk) at 1.
  rewrite map_to_list_insert by apply lookup_delete_eq.
  rewrite filter_cons_True by done.
  rewrite filter_none; [done|].
  intros [k' v'] Hin%elem_of_map_to_list Heq. simpl in Heq. subst k'.
  by rewrite lookup_delete_eq in Hin.
Qed.

Lemma setdefault_lookup `{Countable K} {V} (k : K) (v : V) (d : gmap K V) :
  default v (setdefault k v d !! k) = default v (d !! k).
Proof.
  unfold setdefault. destruct (d !! k) as [x|] eqn:Hk.
  - by rewrite Hk.
  - by rewrite lookup_insert_eq.
Qed.

Lemma insert_setdefault `{Countable K} {V} (k : K) (v x : V) (d : gmap K V) :
  <[k := x]> (setdefault k v d) = <[k := x]> d.
Proof.
  unfold setdefault. destruct (d !! k); [done|]. apply insert_insert_eq.
Qed.

Lemma dict_bool_false `{Countable K} {V} (d : gmap K V) :
  dict_bool d = false <-> d = ∅.
Proof.
  unfold dict_bool. rewrite negb_false_iff, Nat.eqb_eq.
  apply map_size_empty_iff.
Qed.

(** ** Directives *)

Section DirectiveProperties.
Context `{R : Resolver}.

Implicit Types (pkg : Package) (spec : string) (when : pyval).
Implicit Types (kwargs : gmap string pyval).

Lemma set_dependencies_setdefault pkg n (conds : gmap SpecT SpecT) :
  set_dependencies (insert n conds)
    (set_dependencies (setdefault n ∅) pkg)
  = set_dependencies (insert n conds) pkg.
Proof.
  unfold set_dependencies. simpl. f_equal. apply insert_setdefault.
Qed.

Lemma conditions_of_insert pkg n conds :
  conditions_of (set_dependencies (insert n conds) pkg) n = conds.
Proof. unfold conditions_of. simpl. by rewrite lookup_insert_eq. Qed.

(** The three ways [_depends_on] ends before it writes anything. *)
Lemma _depends_on_when_error pkg spec when msg :
  parse_anonymous_spec (resolve_when pkg when) (name pkg) = inl msg ->
  _depends_on spec when pkg = (inl (ResolverError msg), pkg).
Proof.
  intros Hwhen. unfold _depends_on, resolve_when in *. unfold_monad.
  by rewrite Hwhen.
Qed.

Lemma _depends_on_spec_error pkg spec when when_spec msg :
  parse_anonymous_spec (resolve_when pkg when) (name pkg) = inr when_spec ->
  Spec spec = inl msg ->
  _depends_on spec when pkg = (inl (ResolverError msg), pkg).
Proof.
  intros Hwhen Hspec. unfold _depends_on, resolve_when in *. unfold_monad.
  by rewrite Hwhen, Hspec.
Qed.

Lemma _depends_on_self pkg spec when when_spec dep_spec :
  parse_anonymous_spec (resolve_when pkg when) (name pkg) = inr when_spec ->
  Spec spec = inr dep_spec ->
  name pkg = spec_name dep_spec ->
  _depends_on spec when pkg
  = (inl (new_CircularReferenceError "depends_on" (name pkg)), pkg).
Proof.
  intros Hwhen Hspec Hname. unfold _depends_on, resolve_when in *.
  unfold_monad. rewrite Hwhen, Hspec. run_monad. by rewrite decide_True.
Qed.

(** The two ways it writes: a new condition is stored as it is, a
    condition that is there is constrained in place. *)
Lemma _depends_on_new pkg spec when when_spec dep_spec :
  parse_anonymous_spec (resolve_when pkg when) (name pkg) = inr when_spec ->
  Spec spec = inr dep_spec ->
  name pkg <> spec_name dep_spec ->
  conditions_of pkg (spec_name dep_spec) !! when_spec = None ->
  _depends_on spec when pkg
  = (inr tt,
     set_dependencies
       (insert (spec_name dep_spec)
          (<[when_spec := dep_spec]> (conditions_of pkg (spec_name dep_spec))))
       pkg).
Proof.
  intros Hwhen Hspec Hname Hnew.
  unfold _depends_on, resolve_when, conditions_of in *. unfold_monad.
  rewrite Hwhen, Hspec. run_monad. rewrite decide_False by done. simpl.
  rewrite setdefault_lookup, Hnew.
  by rewrite set_dependencies_setdefault.
Qed.

Lemma _depends_on_again pkg spec when when_spec dep_spec stored :
  parse_anonymous_spec (resolve_when pkg when) (name pkg) = inr when_spec ->
  Spec spec = inr dep_spec ->
  name pkg <> spec_name dep_spec ->
  conditions_of pkg (spec_name dep_spec) !! when_spec = Some stored ->
  _depends_on spec when pkg
  = (match snd (constrain stored dep_spec) with
     | Some msg => inl (ResolverError msg)
     | None => inr tt
     end,
     set_dependencies
       (insert (spec_name dep_spec)
          (<[when_spec := fst (constrain stored dep_spec)]>
             (conditions_of pkg (spec_name dep_spec))))
       pkg).
Proof.
  intros Hwhen Hspec Hname Hold.
  unfold _depends_on, resolve_when, conditions_of in *. unfold_monad.
  rewrite Hwhen, Hspec. run_monad. rewrite decide_False by done. simpl.
  rewrite setdefault_lookup, Hold.
  destruct (constrain stored dep_spec) as [stored' [msg|]]; simpl;
    by rewrite set_dependencies_setdefault.
Qed.

(** A condition that is already there keeps the dictionary's keys: its
    constraint is replaced by what [constrain] made of it. *)
Lemma depends_on_repeated_condition pkg spec when when_spec dep_spec stored :
  parse_anonymous_spec (resolve_when pkg when) (name pkg) = inr when_spec ->
  Spec spec = inr dep_spec ->
  name pkg <> spec_name dep_spec ->
  conditions_of pkg (spec_name dep_spec) !! when_spec = Some stored ->
  let pkg' := snd (depends_on spec when pkg) in
  conditions_of pkg' (spec_name dep_spec) !! when_spec
  = Some (fst (constrain stored dep_spec)) /\
  dom (conditions_of pkg' (spec_name dep_spec))
  = dom (conditions_of pkg (spec_name dep_spec)) /\
  (snd (constrain stored dep_spec) = None ->
   fst (depends_on spec when pkg) = inr tt).
Proof.
  intros Hwhen Hspec Hname Hold. unfold depends_on.
  rewrite (_depends_on_again _ _ _ _ _ _ Hwhen Hspec Hname Hold). simpl.
  rewrite conditions_of_insert. split; [apply lookup_insert_eq|]. split.
  - rewrite dom_insert_L.
    apply subseteq_union_1_L, singleton_subseteq_l.
    by eapply elem_of_dom_2.
  - by intros ->.
Qed.

(** C1: two [depends_on] calls for one dependency under one condition,
    on a package that has no constraint under that condition yet: the
    first call stores the declared constraint as it is, the second leaves
    one entry for the condition, whose constraint is what [constrain]
    makes of the first declared constraint and the second. *)
Theorem depends_on_same_condition pkg spec1 spec2 when when_spec d1 d2 :
  parse_anonymous_spec (resolve_when pkg when) (name pkg) = inr when_spec ->
  Spec spec1 = inr d1 ->
  Spec spec2 = inr d2 ->
  spec_name d2 = spec_name d1 ->
  name pkg <> spec_name d1 ->
  conditions_of pkg (spec_name d1) !! when_spec = None ->
  snd (constrain d1 d2) = None ->
  exists pkg1 pkg2,
    depends_on spec1 when pkg = (inr tt, pkg1) /\
    conditions_of pkg1 (spec_name d1)
    = <[when_spec := d1]> (conditions_of pkg (spec_name d1)) /\
    depends_on spec2 when pkg1 = (inr tt, pkg2) /\
    conditions_of pkg2 (spec_name d1)
    = <[when_spec := fst (constrain d1 d2)]>
        (conditions_of pkg (spec_name d1)) /\
    filter (fun kv => kv.1 = when_spec)
      (map_to_list (conditions_of pkg2 (spec_name d1)))
    = [(when_spec, fst (constrain d1 d2))].
Proof.
  intros Hwhen Hspec1 Hspec2 Hsame Hname Hnew Hok. unfold depends_on.
  eexists _, _. split.
  { by apply _depends_on_new. }
  split; [apply conditions_of_insert|].
  set (pkg1 := set_dependencies _ pkg).
  assert (conditions_of pkg1 (spec_name d2) !! when_spec = Some d1) as Hold.
  { rewrite Hsame. subst pkg1. rewrite conditions_of_insert.
    apply lookup_insert_eq. }
  assert (name pkg1 <> spec_name d2) as Hname1 by (by rewrite Hsame).
  rewrite (_depends_on_again pkg1 spec2 when when_spec d2 d1 Hwhen Hspec2
             Hname1 Hold).
  rewrite Hok, Hsame. split; [reflexivity|].
  subst pkg1. rewrite !conditions_of_insert, insert_insert_eq.
  split; [reflexivity|].
  apply dict_one_entry, lookup_insert_eq.
Qed.

(** C10: when [depends_on] raises the [CircularReferenceError], the
    package is what it was before the call. *)
Theorem depends_on_self_reference_leaves_package pkg spec when e pkg' :
  depends_on spec when pkg = (inl e, pkg') ->
  is_CircularReferenceError e = true ->
  pkg' = pkg /\ e = new_CircularReferenceError "depends_on" (name pkg).
Proof.
  unfold depends_on. intros Hrun He.
  destruct (parse_anonymous_spec (resolve_when pkg when) (name pkg))
    as [msg|when_spec] eqn:Hwhen.
  { rewrite (_depends_on_when_error _ _ _ _ Hwhen) in Hrun.
    by simplify_eq. }
  destruct (Spec spec) as [msg|dep_spec] eqn:Hspec.
  { rewrite (_depends_on_spec_error _ _ _ _ _ Hwhen Hspec) in Hrun.
    by simplify_eq. }
  destruct (decide (name pkg = spec_name dep_spec)) as [Hname|Hname].
  { rewrite (_depends_on_self _ _ _ _ _ Hwhen Hspec Hname) in Hrun.
    by simplify_eq. }
  destruct (conditions_of pkg (spec_name dep_spec) !! when_spec)
    as [stored|] eqn:Hold.
  - rewrite (_depends_on_again _ _ _ _ _ _ Hwhen Hspec Hname Hold) in Hrun.
    destruct (snd (constrain stored dep_spec)); by simplify_eq.
  - rewrite (_depends_on_new _ _ _ _ _ Hwhen Hspec Hname Hold) in Hrun.
    discriminate Hrun.
Qed.

(** *** What a call may touch *)

Lemma set_dependencies_id pkg :
  set_dependencies (fun _ => dependencies pkg) pkg = pkg.
Proof. by destruct pkg. Qed.

(** [_depends_on] writes to [pkg.dependencies] only, and only under a
    name that is not the package's. *)
Lemma _depends_on_shape pkg spec when :
  exists deps,
    snd (_depends_on spec when pkg) = set_dependencies (fun _ => deps) pkg /\
    (forall n, n ∈ dom deps ->
               n ∈ dom (dependencies pkg) \/ n <> name pkg).
Proof.
  destruct (parse_anonymous_spec (resolve_when pkg when) (name pkg))
    as [msg|when_spec] eqn:Hwhen.
  { rewrite (_depends_on_when_error _ _ _ _ Hwhen).
    exists (dependencies pkg). rewrite set_dependencies_id. auto. }
  destruct (Spec spec) as [msg|dep_spec] eqn:Hspec.
  { rewrite (_depends_on_spec_error _ _ _ _ _ Hwhen Hspec).
    exists (dependencies pkg). rewrite set_dependencies_id. auto. }
  destruct (decide (name pkg = spec_name dep_spec)) as [Hname|Hname].
  { rewrite (_depends_on_self _ _ _ _ _ Hwhen Hspec Hname).
    exists (dependencies pkg). rewrite set_dependencies_id. auto. }
  assert (forall conds n,
            n ∈ dom (<[spec_name dep_spec := conds]> (dependencies pkg)) ->
            n ∈ dom (dependencies pkg) \/ n <> name pkg) as Hdom.
  { intros conds n. rewrite dom_insert_L, elem_of_union, elem_of_singleton.
    intros [->|Hn]; [right; congruence|by left]. }
  destruct (conditions_of pkg (spec_name dep_spec) !! when_spec)
    as [stored|] eqn:Hold.
  - rewrite (_depends_on_again _ _ _ _ _ _ Hwhen Hspec Hname Hold).
    eexists. split; [reflexivity|apply Hdom].
  - rewrite (_depends_on_new _ _ _ _ _ Hwhen Hspec Hname Hold).
    eexists. split; [reflexivity|apply Hdom].
Qed.

(** [version], [variant] and [patch], step by step. *)
Lemma version_run pkg ver checksum kwargs :
  version ver checksum kwargs pkg
  = match Version ver with
    | inr v =>
        (inr tt,
         set_versions
           (insert v (if py_bool checksum
                      then <["md5" := checksum]> kwargs else kwargs))
           pkg)
    | inl msg => (inl (ResolverError msg), pkg)
    end.
Proof. unfold version. unfold_monad. by destruct (Version ver). Qed.

Lemma variant_run pkg variant_name default_value description :
  variant variant_name default_value description pkg
  = if re_match identifier_re variant_name then
      (inr tt,
       set_variants
         (insert variant_name
            {| variant_default := py_bool default_value;
               variant_description := strip description |})
         pkg)
    else
      (inl (TypeError "__init__() takes exactly 3 arguments (2 given)"),
       pkg).
Proof.
  unfold variant. unfold_monad.
  by destruct (re_match identifier_re variant_name).
Qed.

Lemma patch_shape pkg url_or_filename level when :
  exists f, snd (patch url_or_filename level when pkg) = set_patches f pkg.
Proof.
  unfold patch. unfold_monad.
  destruct (parse_anonymous_spec _ (name pkg)) as [msg|when_spec]; simpl.
  { exists id. by destruct pkg. }
  destruct (Patch (name pkg) url_or_filename level) as [msg|p]; simpl;
    eexists (fun d => _); unfold set_patches; simpl; reflexivity.
Qed.

Lemma extends_again pkg spec kwargs :
  dict_bool (extendees pkg) = true ->
  extends spec kwargs pkg
  = (inl (TypeError "__init__() takes exactly 3 arguments (2 given)"), pkg).
Proof. intros Hext. unfold extends. unfold_monad. by rewrite Hext. Qed.

Lemma extends_first pkg spec kwargs :
  dict_bool (extendees pkg) = false ->
  extends spec kwargs pkg
  = match _depends_on spec (extends_when pkg kwargs) pkg with
    | (inr _, pkg1) =>
        match Spec spec with
        | inr extendee =>
            (inr tt,
             set_extendees
               (insert spec (extendee, delete "when" kwargs)) pkg1)
        | inl msg => (inl (ResolverError msg), pkg1)
        end
    | (inl e, pkg1) => (inl e, pkg1)
    end.
Proof.
  intros Hext. unfold extends, extends_when. unfold_monad. rewrite Hext.
  destruct (_depends_on spec _ pkg) as [[e|[]] pkg1]; [done|].
  by destruct (Spec spec).
Qed.

(** The first [extends] of a package, on a dependency it has no
    constraint on under the condition. *)
Lemma extends_new pkg spec kwargs when_spec dep_spec :
  dict_bool (extendees pkg) = false ->
  parse_anonymous_spec
    (resolve_when pkg (extends_when pkg kwargs)) (name pkg)
  = inr when_spec ->
  Spec spec = inr dep_spec ->
  name pkg <> spec_name dep_spec ->
  conditions_of pkg (spec_name dep_spec) !! when_spec = None ->
  extends spec kwargs pkg
  = (inr tt,
     set_extendees (insert spec (dep_spec, delete "when" kwargs))
       (set_dependencies
          (insert (spec_name dep_spec)
             (<[when_spec := dep_spec]>
                (conditions_of pkg (spec_name dep_spec))))
          pkg)).
Proof.
  intros Hext Hwhen Hspec Hname Hnew. rewrite (extends_first _ _ _ Hext).
  by rewrite (_depends_on_new _ _ _ _ _ Hwhen Hspec Hname Hnew), Hspec.
Qed.

(** After an [extends] that returned, [pkg.extendees] has an entry. *)
Lemma extends_returned pkg spec kwargs pkg' :
  extends spec kwargs pkg = (inr tt, pkg') ->
  dict_bool (extendees pkg') = true.
Proof.
  intros Hrun. destruct (dict_bool (extendees pkg)) eqn:Hext.
  { rewrite (extends_again _ _ _ Hext) in Hrun. discriminate Hrun. }
  rewrite (extends_first _ _ _ Hext) in Hrun.
  destruct (_depends_on spec _ pkg) as [[e|[]] pkg1]; [discriminate Hrun|].
  destruct (Spec spec) as [msg|extendee]; [discriminate Hrun|].
  injection Hrun as <-. simpl.
  apply not_false_iff_true. intros Hnone%dict_bool_false.
  by apply insert_non_empty in Hnone.
Qed.

(** C4, as amended: a call to [extends] returns exactly when the
    package extends nothing yet, [depends_on] returns on the same
    arguments (with [when] taken from the keyword arguments, the name of
    the package by default) and the spec parses; the package is then the
    one [depends_on] leaves, with [extendees] holding one entry: under
    the spec string as it was passed, the parsed spec and the keyword
    arguments without [when]. *)
Theorem extends_records_spec_string pkg spec kwargs pkg' :
  extends spec kwargs pkg = (inr tt, pkg') <->
  extendees pkg = ∅ /\
  exists pkg1 extendee,
    depends_on spec (extends_when pkg kwargs) pkg = (inr tt, pkg1) /\
    Spec spec = inr extendee /\
    pkg' = set_extendees
             (fun _ => {[ spec := (extendee, delete "when" kwargs) ]}) pkg1.
Proof.
  unfold depends_on.
  destruct (_depends_on_shape pkg spec (extends_when pkg kwargs))
    as (deps & Hshape & _).
  split.
  - intros Hrun. destruct (dict_bool (extendees pkg)) eqn:Hext.
    { rewrite (extends_again _ _ _ Hext) in Hrun. discriminate Hrun. }
    rewrite (extends_first _ _ _ Hext) in Hrun.
    apply dict_bool_false in Hext. split; [done|].
    destruct (_depends_on spec _ pkg) as [[e|[]] pkg1]; [discriminate Hrun|].
    destruct (Spec spec) as [msg|extendee]; [discriminate Hrun|].
    exists pkg1, extendee. split; [done|]. split; [done|].
    simpl in Hshape. injection Hrun as <-. subst pkg1.
    unfold set_extendees. simpl. by rewrite Hext, insert_empty.
  - intros (Hext & pkg1 & extendee & Hdep & Hspec & ->).
    rewrite extends_first by (by apply dict_bool_false).
    rewrite Hdep, Hspec. rewrite Hdep in Hshape. simpl in Hshape.
    subst pkg1. unfold set_extendees. simpl. by rewrite Hext, insert_empty.
Qed.

(** C3: the second call to [extends] stops at the test of
    [pkg.extendees]; what it raises there is the [TypeError] of the call
    [DirectiveError(message)], not a [DirectiveError]. *)
Theorem extends_twice_raises_TypeError pkg spec1 kwargs1 pkg1 spec2 kwargs2 :
  extends spec1 kwargs1 pkg = (inr tt, pkg1) ->
  exists e,
    extends spec2 kwargs2 pkg1 = (inl e, pkg1) /\
    e = TypeError "__init__() takes exactly 3 arguments (2 given)" /\
    is_DirectiveError e = false.
Proof.
  intros Hfirst. eexists. split; [|done].
  by apply extends_again, (extends_returned pkg spec1 kwargs1).
Qed.

(** *** [provides] *)

Lemma provides_body_run provider_spec provided_spec pkg :
  provides_body provider_spec provided_spec pkg
  = if decide (name pkg = spec_name provided_spec) then
      (inl (new_CircularReferenceError "depends_on" (name pkg)), pkg)
    else
      (inr tt, set_provided (insert provided_spec provider_spec) pkg).
Proof.
  unfold provides_body. unfold_monad.
  by destruct (decide (name pkg = spec_name provided_spec)).
Qed.

Lemma provided_grown_refl pkg : provided_grown pkg pkg.
Proof. exists (provided pkg). split; [by destruct pkg|auto]. Qed.

Lemma provided_grown_trans pkg1 pkg2 pkg3 :
  provided_grown pkg1 pkg2 -> provided_grown pkg2 pkg3 ->
  provided_grown pkg1 pkg3.
Proof.
  intros (p2 & -> & H2) (p3 & -> & H3). exists p3. split; [done|].
  intros k Hk. destruct (H3 k Hk) as [Hk2|Hk2]; [|by right].
  simpl in Hk2. by apply H2.
Qed.

Lemma provides_body_grown provider_spec provided_spec pkg :
  provided_grown pkg (snd (provides_body provider_spec provided_spec pkg)).
Proof.
  rewrite provides_body_run.
  destruct (decide (name pkg = spec_name provided_spec)) as [|Hname];
    simpl; [apply provided_grown_refl|].
  eexists. split; [reflexivity|].
  intros k. rewrite dom_insert_L, elem_of_union, elem_of_singleton.
  intros [->|Hk]; [right; congruence|by left].
Qed.

Lemma for_each_grown {A} (body : A -> M Package unit) l pkg :
  (forall x pkg, provided_grown pkg (snd (body x pkg))) ->
  provided_grown pkg (snd (for_each l body pkg)).
Proof.
  intros Hbody. revert pkg. induction l as [|x l IH]; intros pkg; simpl.
  - apply provided_grown_refl.
  - unfold bind. pose proof (Hbody x pkg) as Hx.
    destruct (body x pkg) as [[e|[]] pkg1]; simpl in *; [done|].
    eapply provided_grown_trans; [exact Hx|apply IH].
Qed.

Lemma provides_grown pkg specs kwargs :
  provided_grown pkg (snd (provides specs kwargs pkg)).
Proof.
  unfold provides. unfold_monad.
  destruct (parse_anonymous_spec _ (name pkg)) as [msg|provider_spec];
    simpl; [apply provided_grown_refl|].
  apply for_each_grown. intros string pkg0.
  destruct (parse string) as [msg|provided_specs]; simpl;
    [apply provided_grown_refl|].
  apply for_each_grown. intros. apply provides_body_grown.
Qed.

(** A spec named as the package stops the inner loop. *)
Lemma provides_body_loop_self provider_spec l self pkg :
  self ∈ l -> spec_name self = name pkg ->
  exists pkg',
    for_each l (provides_body provider_spec) pkg
    = (inl (new_CircularReferenceError "depends_on" (name pkg)), pkg').
Proof.
  revert pkg. induction l as [|x l IH]; intros pkg Hin Hself.
  - by apply elem_of_nil in Hin.
  - simpl. unfold bind. rewrite provides_body_run.
    destruct (decide (name pkg = spec_name x)) as [|Hx]; [by eexists|].
    apply elem_of_cons in Hin as [->|Hin]; [congruence|].
    destruct (IH (set_provided (insert x provider_spec) pkg) Hin Hself)
      as (pkg' & Hrun).
    exists pkg'. exact Hrun.
Qed.

(** A string that parses to a spec named as the package stops
    [provides]. *)
Lemma provides_self pkg string specs kwargs provider_spec provided_specs self :
  parse_anonymous_spec
    (default (PyStr (name pkg)) (kwargs !! "when")) (name pkg)
  = inr provider_spec ->
  parse string = inr provided_specs ->
  self ∈ provided_specs -> spec_name self = name pkg ->
  exists pkg',
    provides (string :: specs) kwargs pkg
    = (inl (new_CircularReferenceError "depends_on" (name pkg)), pkg').
Proof.
  intros Hprovider Hparse Hin Hself.
  unfold provides. unfold_monad. rewrite Hprovider. run_monad.
  rewrite Hparse. run_monad.
  destruct (provides_body_loop_self provider_spec _ _ pkg Hin Hself)
    as (pkg' & ->).
  by exists pkg'.
Qed.

(** *** What every call preserves *)

Lemma evolves_refl pkg : evolves pkg pkg.
Proof. repeat split; auto. Qed.

Lemma evolves_dependencies pkg deps :
  (forall n, n ∈ dom deps ->
             n ∈ dom (dependencies pkg) \/ n <> name pkg) ->
  evolves pkg (set_dependencies (fun _ => deps) pkg).
Proof. intros Hdeps. repeat split; simpl; auto. Qed.

Lemma extends_evolves pkg spec kwargs :
  evolves pkg (snd (extends spec kwargs pkg)).
Proof.
  destruct (dict_bool (extendees pkg)) eqn:Hext.
  { rewrite (extends_again _ _ _ Hext). apply evolves_refl. }
  rewrite (extends_first _ _ _ Hext). apply dict_bool_false in Hext.
  destruct (_depends_on_shape pkg spec (extends_when pkg kwargs))
    as (deps & Hshape & Hdeps).
  destruct (_depends_on spec _ pkg) as [[e|[]] pkg1]; simpl in Hshape;
    subst pkg1; [by apply evolves_dependencies|].
  destruct (Spec spec) as [msg|extendee]; simpl;
    [by apply evolves_dependencies|].
  repeat split; simpl; auto. right. split; [done|].
  by rewrite Hext, insert_empty, map_size_singleton.
Qed.

Lemma run_evolves c pkg : evolves pkg (snd (run c pkg)).
Proof.
  destruct c as [ver checksum kwargs|spec when|spec kwargs|specs kwargs
                |url_or_filename level when
                |variant_name default_value description]; simpl.
  - rewrite version_run. destruct (Version ver); repeat split; simpl; auto.
  - destruct (_depends_on_shape pkg spec when) as (deps & Hshape & Hdeps).
    unfold depends_on. rewrite Hshape. by apply evolves_dependencies.
  - apply extends_evolves.
  - destruct (provides_grown pkg specs kwargs) as (provided' & -> & Hp).
    repeat split; simpl; auto.
  - destruct (patch_shape pkg url_or_filename level when) as (f & ->).
    repeat split; simpl; auto.
  - rewrite variant_run.
    destruct (re_match identifier_re variant_name);
      repeat split; simpl; auto.
Qed.

Lemma new_package_self_free n : self_free (new_package n).
Proof. split; simpl; [|intros k]; rewrite dom_empty_L; set_solver. Qed.

Lemma evolves_self_free pkg pkg' :
  evolves pkg pkg' -> self_free pkg -> self_free pkg'.
Proof.
  intros (Hname & Hdeps & Hprov & _) [Hd Hp]. split.
  - rewrite Hname. intros Hin. by destruct (Hdeps _ Hin).
  - intros k Hk. rewrite Hname. destruct (Hprov _ Hk); auto.
Qed.

Lemma evolves_at_most_one_extendee pkg pkg' :
  evolves pkg pkg' ->
  size (extendees pkg) <= 1 -> size (extendees pkg') <= 1.
Proof. intros (_ & _ & _ & [->|[_ ->]]); lia. Qed.

Lemma for_each_run_evolves calls pkg (P : Package -> Prop) :
  (forall pkg pkg', evolves pkg pkg' -> P pkg -> P pkg') ->
  P pkg -> P (snd (for_each calls run pkg)).
Proof.
  intros HP. revert pkg. induction calls as [|c calls IH]; intros pkg Hpkg.
  - exact Hpkg.
  - simpl. unfold bind. pose proof (run_evolves c pkg) as Hc.
    destruct (run c pkg) as [[e|[]] pkg1]; simpl in *; [by eapply HP|].
    apply IH. by eapply HP.
Qed.

(** Whatever the calls, the package a definition builds has no
    dependency on itself, provides nothing of its own name and extends at
    most one package. *)
Lemma define_invariants n calls :
  self_free (snd (define n calls)) /\
  size (extendees (snd (define n calls))) <= 1.
Proof.
  split; unfold define.
  - apply for_each_run_evolves;
      [apply evolves_self_free|apply new_package_self_free].
  - apply (for_each_run_evolves calls (new_package n)
             (fun pkg => size (extendees pkg) <= 1));
      [apply evolves_at_most_one_extendee|].
    simpl. rewrite map_size_empty. lia.
Qed.

(** C2, as amended: naming the package itself raises the
    [CircularReferenceError] in [depends_on], in [extends] on a package
    that extends nothing yet, and in [provides] (the conditions and the
    specs being ones the resolver parses); and every directive call,
    returning or raising, keeps the name of the package and leaves no
    dependency and no provided spec under that name. *)
Theorem self_reference_rejected pkg :
  (forall spec when when_spec self,
     parse_anonymous_spec (resolve_when pkg when) (name pkg)
     = inr when_spec ->
     Spec spec = inr self -> spec_name self = name pkg ->
     depends_on spec when pkg
     = (inl (new_CircularReferenceError "depends_on" (name pkg)), pkg)) /\
  (forall spec kwargs when_spec self,
     extendees pkg = ∅ ->
     parse_anonymous_spec
       (resolve_when pkg (extends_when pkg kwargs)) (name pkg)
     = inr when_spec ->
     Spec spec = inr self -> spec_name self = name pkg ->
     extends spec kwargs pkg
     = (inl (new_CircularReferenceError "depends_on" (name pkg)), pkg)) /\
  (forall string specs kwargs provider_spec provided_specs self,
     parse_anonymous_spec
       (default (PyStr (name pkg)) (kwargs !! "when")) (name pkg)
     = inr provider_spec ->
     parse string = inr provided_specs ->
     self ∈ provided_specs -> spec_name self = name pkg ->
     exists pkg',
       provides (string :: specs) kwargs pkg
       = (inl (new_CircularReferenceError "depends_on" (name pkg)),
          pkg')) /\
  (forall c,
     name (snd (run c pkg)) = name pkg /\
     (self_free pkg -> self_free (snd (run c pkg)))).
Proof.
  split; [|split; [|split]].
  - intros spec when when_spec self Hwhen Hspec Hself.
    by apply (_depends_on_self _ _ _ when_spec self).
  - intros spec kwargs when_spec self Hext Hwhen Hspec Hself.
    rewrite extends_first by (by apply dict_bool_false).
    by rewrite (_depends_on_self _ _ _ when_spec self).
  - intros string specs kwargs provider_spec provided_specs self.
    apply provides_self.
  - intros c. pose proof (run_evolves c pkg) as Hc. split.
    + by destruct Hc.
    + by apply evolves_self_free.
Qed.

(** C7: [version] with a checksum stores, under the parsed version, the
    fetch parameters with [md5] set to the checksum; and a later call whose
    version is the same replaces the entry by its own parameters, whatever
    the entry was, and leaves the other versions alone. *)
Theorem version_stores_checksum pkg ver v :
  Version ver = inr v ->
  (forall checksum kwargs,
     py_bool checksum = true ->
     exists pkg' fetch,
       version ver checksum kwargs pkg = (inr tt, pkg') /\
       versions pkg' !! v = Some fetch /\
       fetch !! "md5" = Some checksum) /\
  (forall ver' checksum kwargs prior,
     Version ver' = inr v ->
     versions pkg !! v = Some prior ->
     exists pkg',
       version ver' checksum kwargs pkg = (inr tt, pkg') /\
       versions pkg' !! v
       = Some (if py_bool checksum
               then <["md5" := checksum]> kwargs else kwargs) /\
       forall v', v' <> v -> versions pkg' !! v' = versions pkg !! v').
Proof.
  intros Hver. split.
  - intros checksum kwargs Hsum. rewrite version_run, Hver, Hsum.
    eexists _, _. split; [reflexivity|]. simpl.
    split; apply lookup_insert_eq.
  - intros ver' checksum kwargs prior Hver' _. rewrite version_run, Hver'.
    eexists. split; [reflexivity|]. simpl.
    split; [apply lookup_insert_eq|].
    intros v' Hv'. by apply lookup_insert_ne.
Qed.

(** *** [variant] *)

Lemma prefixes_self s : s ∈ prefixes s.
Proof.
  induction s as [|c s IH]; simpl; [by left|].
  right. apply list_elem_of_In, in_map, list_elem_of_In, IH.
Qed.

Lemma prefixes_append s rest : s ∈ prefixes (s +:+ rest).
Proof.
  induction s as [|c s IH]; simpl.
  - destruct rest; by left.
  - right. apply list_elem_of_In, in_map, list_elem_of_In, IH.
Qed.

(** [re.match] accepts a string as soon as it starts with a string of
    the pattern. *)
Lemma re_match_prefix pattern s rest :
  pattern s = true -> re_match pattern (s +:+ rest) = true.
Proof.
  intros Hs. unfold re_match. apply existsb_exists. exists s.
  split; [|done]. apply list_elem_of_In, prefixes_append.
Qed.

(** So [variant] accepts, and stores, any name that starts with an
    identifier. *)
Lemma variant_accepts_prefix pkg s rest default_value description :
  identifier_re s = true ->
  variant (s +:+ rest) default_value description pkg
  = (inr tt,
     set_variants
       (insert (s +:+ rest)
          {| variant_default := py_bool default_value;
             variant_description := strip description |})
       pkg).
Proof.
  intros Hs. by rewrite variant_run, (re_match_prefix _ _ _ Hs).
Qed.

End DirectiveProperties.

(** * The directives on concrete packages *)

Section Examples.
Local Existing Instance concrete_resolver.

Local Abbreviation Package := (@Package concrete_resolver).
Local Abbreviation new_package := (@new_package concrete_resolver).

(** [depends_on("foo@1.0", when="bar")] then
    [depends_on("foo@:2.0", when="bar")], in package [bar]. *)
Lemma depends_on_same_condition_witness :
  exists pkg1 pkg2 : Package,
    depends_on "foo@1.0" (PyStr "bar") (new_package "bar") = (inr tt, pkg1) /\
    conditions_of pkg1 "foo"
    = <[("bar", []) := ("foo", ["@1.0"])]>
        (conditions_of (new_package "bar") "foo") /\
    depends_on "foo@:2.0" (PyStr "bar") pkg1 = (inr tt, pkg2) /\
    conditions_of pkg2 "foo"
    = <[("bar", []) := ("foo", ["@1.0"; "@:2.0"])]>
        (conditions_of (new_package "bar") "foo") /\
    filter (fun kv => kv.1 = ("bar", []))
      (map_to_list (conditions_of pkg2 "foo"))
    = [(("bar", []), ("foo", ["@1.0"; "@:2.0"]))].
Proof.
  apply (depends_on_same_condition (new_package "bar") "foo@1.0" "foo@:2.0"
           (PyStr "bar") ("bar", []) ("foo", ["@1.0"]) ("foo", ["@:2.0"])).
  - reflexivity.
  - reflexivity.
  - reflexivity.
  - reflexivity.
  - discriminate.
  - reflexivity.
  - reflexivity.
Defined.

(** A dependency of [bar] on [bar]. *)
Lemma depends_on_bar_on_bar :
  depends_on "bar@1.0" PyNone (new_package "bar")
  = (inl (new_CircularReferenceError "depends_on" "bar"), new_package "bar").
Proof.
  apply (_depends_on_self (new_package "bar") "bar@1.0" PyNone
           ("bar", []) ("bar", ["@1.0"])); reflexivity.
Defined.

Lemma depends_on_self_reference_leaves_package_witness :
  snd (depends_on "bar@1.0" PyNone (new_package "bar")) = new_package "bar".
Proof.
  destruct (depends_on "bar@1.0" PyNone (new_package "bar")) as [r pkg']
    eqn:Hrun.
  pose proof Hrun as Hself. rewrite depends_on_bar_on_bar in Hself.
  injection Hself as <- <-.
  apply (depends_on_self_reference_leaves_package (new_package "bar")
           "bar@1.0" PyNone
           (new_CircularReferenceError "depends_on" "bar")
           (new_package "bar")).
  - exact depends_on_bar_on_bar.
  - reflexivity.
Defined.

(** [version("1.0", checksum="abc123")], and a second declaration of
    [1.0] after it. *)
Lemma version_stores_checksum_witness :
  (exists (pkg' : Package) fetch,
     version "1.0" (PyStr "abc123") ∅ (new_package "libelf")
     = (inr tt, pkg') /\
     versions pkg' !! "1.0" = Some fetch /\
     fetch !! "md5" = Some (PyStr "abc123")) /\
  (exists pkg' : Package,
     version "1.0" PyNone {[ "url" := PyStr "http://example.com/1.0.tgz" ]}
       (set_versions (insert "1.0" {[ "md5" := PyStr "abc123" ]})
          (new_package "libelf"))
     = (inr tt, pkg') /\
     versions pkg' !! "1.0"
     = Some {[ "url" := PyStr "http://example.com/1.0.tgz" ]}).
Proof.
  split.
  - destruct (version_stores_checksum (new_package "libelf") "1.0" "1.0")
      as [Hstore _].
    + reflexivity.
    + apply (Hstore (PyStr "abc123") ∅). reflexivity.
  - destruct (version_stores_checksum
                (set_versions (insert "1.0" {[ "md5" := PyStr "abc123" ]})
                   (new_package "libelf")) "1.0" "1.0")
      as [_ Hagain].
    + reflexivity.
    + destruct (Hagain "1.0" PyNone
                  {[ "url" := PyStr "http://example.com/1.0.tgz" ]}
                  {[ "md5" := PyStr "abc123" ]})
        as (pkg' & Hrun & Hlookup & _).
      * reflexivity.
      * simpl. apply lookup_insert_eq.
      * exists pkg'. split; [exact Hrun|exact Hlookup].
Defined.

(** [extends("python")] in package [py-numpy]. *)
Lemma numpy_extends_python :
  extends "python" ∅ (new_package "py-numpy") = (inr tt, numpy).
Proof.
  apply (extends_new (new_package "py-numpy") "python" ∅
           ("py-numpy", []) ("python", [])); try reflexivity.
  discriminate.
Defined.

Lemma numpy_extendees : dict_bool (extendees numpy) = true.
Proof.
  unfold dict_bool, numpy. simpl.
  by rewrite insert_empty, map_size_singleton.
Defined.

(** C2, as stated, fails: once [py-numpy] extends [python], an [extends]
    that names [py-numpy] itself stops at the test of [pkg.extendees]
    and does not raise the [CircularReferenceError]. *)
Lemma extends_self_after_extends :
  exists (pkg : Package) e,
    extends "python" ∅ (new_package "py-numpy") = (inr tt, pkg) /\
    extends (name pkg) ∅ pkg = (inl e, pkg) /\
    is_CircularReferenceError e = false.
Proof.
  exists numpy, (TypeError "__init__() takes exactly 3 arguments (2 given)").
  split; [apply numpy_extends_python|].
  split; [|reflexivity].
  apply extends_again, numpy_extendees.
Qed.

Lemma self_reference_rejected_witness :
  depends_on "mpich" PyNone (new_package "mpich")
  = (inl (new_CircularReferenceError "depends_on" "mpich"),
     new_package "mpich") /\
  extends "mpich" ∅ (new_package "mpich")
  = (inl (new_CircularReferenceError "depends_on" "mpich"),
     new_package "mpich") /\
  (exists pkg' : Package,
     provides ["mpich"] ∅ (new_package "mpich")
     = (inl (new_CircularReferenceError "depends_on" "mpich"), pkg')) /\
  self_free (snd (run (call_depends_on "mpi" PyNone) (new_package "mpich"))).
Proof.
  destruct (self_reference_rejected (new_package "mpich"))
    as (Hdep & Hext & Hprov & Hrun).
  split; [|split; [|split]].
  - apply (Hdep "mpich" PyNone ("mpich", []) ("mpich", [])); reflexivity.
  - apply (Hext "mpich" ∅ ("mpich", []) ("mpich", [])); reflexivity.
  - apply (Hprov "mpich" [] ∅ ("mpich", []) [("mpich", [])] ("mpich", []));
      try reflexivity.
    apply list_elem_of_here.
  - apply Hrun, new_package_self_free.
Defined.

(** [extends("python")] then [extends("perl")], in package [py-numpy]. *)
Lemma extends_twice_raises_TypeError_witness :
  exists e,
    extends "python" ∅ (new_package "py-numpy") = (inr tt, numpy) /\
    extends "perl" ∅ numpy = (inl e, numpy) /\
    e = TypeError "__init__() takes exactly 3 arguments (2 given)" /\
    is_DirectiveError e = false.
Proof.
  destruct (extends_twice_raises_TypeError (new_package "py-numpy")
              "python" ∅ numpy "perl" ∅ numpy_extends_python)
    as (e & Hsecond).
  exists e. split; [exact numpy_extends_python|exact Hsecond].
Defined.

(** [extends("python@2.7", when="@1.9")] in package [py-numpy]. *)
Lemma numpy_depends_on_python_2_7 :
  depends_on "python@2.7" (PyStr "@1.9") (new_package "py-numpy")
  = (inr tt,
     set_dependencies
       (insert "python"
          (<[("py-numpy", ["@1.9"]) := ("python", ["@2.7"])]>
             (conditions_of (new_package "py-numpy") "python")))
       (new_package "py-numpy")).
Proof.
  apply (_depends_on_new (new_package "py-numpy") "python@2.7" (PyStr "@1.9")
           ("py-numpy", ["@1.9"]) ("python", ["@2.7"])); try reflexivity.
  discriminate.
Defined.

(** C4, as stated, fails: [extends("python@2.7")] leaves nothing under
    the name [python] of the dependency; the entry is under the string
    that was passed. *)
Lemma extends_keys_by_spec_string :
  exists pkg' : Package,
    extends "python@2.7" ∅ (new_package "py-numpy") = (inr tt, pkg') /\
    Spec "python@2.7" = inr ("python", ["@2.7"]) /\
    spec_name (("python", ["@2.7"]) : SpecT) = "python" /\
    extendees pkg' !! "python" = None /\
    extendees pkg' !! "python@2.7" = Some (("python", ["@2.7"]), ∅).
Proof.
  eexists. split.
  { apply (extends_new (new_package "py-numpy") "python@2.7" ∅
             ("py-numpy", []) ("python", ["@2.7"])); try reflexivity.
    discriminate. }
  split; [reflexivity|]. split; [reflexivity|]. simpl. split.
  - by rewrite lookup_insert_ne.
  - by rewrite lookup_insert_eq, delete_empty.
Qed.

Lemma extends_records_spec_string_witness :
  exists pkg' : Package,
    extends "python@2.7" {[ "when" := PyStr "@1.9" ]}
      (new_package "py-numpy")
    = (inr tt, pkg') /\
    extendees pkg' !! "python@2.7" = Some (("python", ["@2.7"]), ∅) /\
    conditions_of pkg' "python" !! ("py-numpy", ["@1.9"])
    = Some ("python", ["@2.7"]).
Proof.
  eexists. split.
  - apply (extends_records_spec_string (new_package "py-numpy")
             "python@2.7" {[ "when" := PyStr "@1.9" ]}).
    split; [reflexivity|].
    eexists _, ("python", ["@2.7"]).
    split; [exact numpy_depends_on_python_2_7|]. split; reflexivity.
  - simpl. split.
    + by rewrite lookup_singleton_eq, delete_singleton_eq.
    + unfold conditions_of. simpl.
      by rewrite lookup_insert_eq; simpl; rewrite lookup_insert_eq.
Defined.

(** C6: [provides("mpi")] in package [mpi] raises an error whose
    [directive] is ["depends_on"], not the name of the directive that was
    called. *)
Theorem provides_error_names_depends_on :
  let c := call_provides ["mpi"] ∅ in
  exists e (pkg' : Package),
    run c (new_package "mpi") = (inl e, pkg') /\
    exn_directive e = Some "depends_on" /\
    exn_package e = Some "mpi" /\
    call_name c = "provides".
Proof.
  destruct (provides_self (new_package "mpi") "mpi" [] ∅
              ("mpi", []) [("mpi", [])] ("mpi", []))
    as (pkg' & Hrun); try reflexivity.
  { apply list_elem_of_here. }
  exists (new_CircularReferenceError "depends_on" "mpi"), pkg'.
  split; [exact Hrun|]. repeat split.
Qed.

(** The error of [extends] and of [variant] carries neither the
    directive nor the package. *)
Lemma extends_and_variant_errors_carry_nothing :
  (exists e,
     run (call_extends "perl" ∅) numpy = (inl e, numpy) /\
     exn_directive e = None /\ exn_package e = None) /\
  (exists e,
     run (call_variant "!debug" (PyBool false) "") (new_package "libelf")
     = (inl e, new_package "libelf") /\
     exn_directive e = None /\ exn_package e = None).
Proof.
  split;
    exists (TypeError "__init__() takes exactly 3 arguments (2 given)");
    (split; [|split; reflexivity]); simpl.
  - apply extends_again, numpy_extendees.
  - by rewrite variant_run.
Qed.

(** [variant("shared", default=True, description=" x ")] *)
Lemma variant_shared :
  exists pkg' : Package,
    variant "shared" (PyBool true) " x " (new_package "libelf")
    = (inr tt, pkg') /\
    variants pkg' !! "shared"
    = Some {| variant_default := true; variant_description := "x" |}.
Proof.
  eexists. split.
  - by rewrite variant_run.
  - simpl. by rewrite lookup_insert_eq.
Qed.

(** C8: ["bad name!"] is no identifier, and [variant("bad name!")]
    returns and stores the variant: [re.match] is satisfied by the
    identifier ["bad"] the name starts with. *)
Theorem variant_accepts_bad_name :
  identifier_re "bad name!" = false /\
  identifier_re "bad" = true /\
  exists pkg' : Package,
    variant "bad name!" (PyBool false) "" (new_package "libelf")
    = (inr tt, pkg') /\
    variants pkg' !! "bad name!"
    = Some {| variant_default := false; variant_description := "" |}.
Proof.
  split; [reflexivity|]. split; [reflexivity|].
  eexists. split.
  - apply (variant_accepts_prefix _ "bad" " name!"). reflexivity.
  - simpl. by rewrite lookup_insert_eq.
Qed.

End Examples.

(** * Further properties *)

(** ** Bootstrap *)

Section BootstrapOutcome.
Context {D : Type} `{Empty D}.
Context (pkg_str : gmap string (attr D) -> string).

Implicit Types (pkg : gmap string (attr D)) (d : pyval) (f : string).

Lemma for_each_ensure_dict_returns l pkg :
  forallb is_basestring l = true ->
  (forall f v, PyStr f ∈ l -> pkg !! f <> Some (AttrOther v)) ->
  exists pkg',
    for_each l (ensure_dict pkg_str) pkg = (inr tt, pkg') /\
    (forall f a, pkg !! f = Some a -> pkg' !! f = Some a) /\
    (forall f, PyStr f ∈ l -> pkg !! f = None ->
               pkg' !! f = Some (AttrDict ∅)) /\
    (forall f, PyStr f ∉ l -> pkg' !! f = pkg !! f).
Proof.
  revert pkg. induction l as [|d l IH]; intros pkg Hstr Hdict.
  - exists pkg. split; [done|]. split; [done|]. split; [|done].
    intros f Hin. by apply elem_of_nil in Hin.
  - simpl in Hstr. apply andb_true_iff in Hstr as [Hd Hstr].
    destruct d as [| | |g| |]; try discriminate Hd.
    cbn [for_each]. unfold bind.
    assert (exists pkg1,
              ensure_dict pkg_str (PyStr g) pkg = (inr tt, pkg1) /\
              (forall f a, pkg !! f = Some a -> pkg1 !! f = Some a) /\
              (pkg !! g = None -> pkg1 !! g = Some (AttrDict ∅)) /\
              (forall f, f <> g -> pkg1 !! f = pkg !! f)) as Hstep.
    { destruct (pkg !! g) as [[c|v]|] eqn:Hg.
      - exists pkg. by rewrite (ensure_dict_dict _ _ _ _ Hg).
      - exfalso. by apply (Hdict g v); [left|].
      - exists (<[g := AttrDict ∅]> pkg).
        rewrite (ensure_dict_absent _ _ _ Hg). split; [done|].
        split; [|split].
        + intros f a Hf. rewrite lookup_insert_ne; [done|congruence].
        + intros _. apply lookup_insert_eq.
        + intros f Hf. by rewrite lookup_insert_ne. }
    destruct Hstep as (pkg1 & -> & Hkeep1 & Hnew1 & Hother1).
    destruct (IH pkg1 Hstr) as (pkg' & -> & Hkeep & Hnew & Hother).
    { intros f v Hin Hf. destruct (decide (f = g)) as [->|Hfg].
      - destruct (pkg !! g) as [a|] eqn:Hg.
        + rewrite (Hkeep1 _ _ Hg) in Hf. apply (Hdict g v); [by left|].
          congruence.
        + rewrite (Hnew1 eq_refl) in Hf. discriminate Hf.
      - rewrite (Hother1 _ Hfg) in Hf. apply (Hdict f v); [by right|done]. }
    exists pkg'. split; [done|]. split; [|split].
    + intros f a Hf. eauto.
    + intros f Hin Hf. destruct (decide (f = g)) as [->|Hfg].
      * apply Hkeep, Hnew1, Hf.
      * apply Hnew; [|by rewrite Hother1].
        apply elem_of_cons in Hin as [Heq|Hin]; [congruence|done].
    + intros f Hnin. apply not_elem_of_cons in Hnin as [Hne Hnin].
      rewrite (Hother _ Hnin). apply Hother1. congruence.
Qed.

(** X1: When the registered names are strings and none of them is bound to
    something that is not a dictionary, [ensure_dicts] returns; what was
    there is untouched, every registered name that was missing is now an
    empty dictionary, and no other attribute appears. *)
Theorem ensure_dicts_returns directives pkg :
  forallb is_basestring (required_dicts directives) = true ->
  (forall f v, PyStr f ∈ required_dicts directives ->
               pkg !! f <> Some (AttrOther v)) ->
  exists pkg',
    ensure_dicts pkg_str directives pkg = (inr tt, pkg') /\
    (forall f a, pkg !! f = Some a -> pkg' !! f = Some a) /\
    (forall f, PyStr f ∈ required_dicts directives -> pkg !! f = None ->
               pkg' !! f = Some (AttrDict ∅)) /\
    (forall f, PyStr f ∉ required_dicts directives -> pkg' !! f = pkg !! f).
Proof.
  intros Hstr Hdict. rewrite ensure_dicts_flat.
  by apply for_each_ensure_dict_returns.
Qed.

(** X2: Returning or raising, [ensure_dicts] never rebinds and never removes
    an attribute the package had. *)
Theorem ensure_dicts_keeps_attributes directives pkg :
  pkg ⊆ snd (ensure_dicts pkg_str directives pkg).
Proof.
  rewrite ensure_dicts_flat.
  destruct (for_each (required_dicts directives) (ensure_dict pkg_str) pkg)
    as [r pkg'] eqn:Hrun.
  by eapply for_each_ensure_dict_grows.
Qed.

End BootstrapOutcome.

(** ** Directives *)

Lemma setdefault_lookup_ne `{Countable K} {V} (k k' : K) (v : V)
    (d : gmap K V) :
  k <> k' -> setdefault k v d !! k' = d !! k'.
Proof.
  intros Hk. unfold setdefault. destruct (d !! k); [done|].
  by apply lookup_insert_ne.
Qed.

Lemma setdefault_dom `{Countable K} {V} (k : K) (v : V) (d : gmap K V) :
  dom d ⊆ dom (setdefault k v d).
Proof.
  unfold setdefault. destruct (d !! k); [done|]. apply dom_insert_subseteq.
Qed.

Section DirectiveOutcome.
Context `{R : Resolver}.

Implicit Types (pkg : Package) (spec : string) (when : pyval).
Implicit Types (kwargs : gmap string pyval).

(** *** [patch] *)

Lemma patch_run pkg url_or_filename level when :
  patch url_or_filename level when pkg
  = match parse_anonymous_spec (resolve_when pkg when) (name pkg) with
    | inl msg => (inl (ResolverError msg), pkg)
    | inr when_spec =>
        match Patch (name pkg) url_or_filename level with
        | inl msg =>
            (inl (ResolverError msg),
             set_patches (setdefault when_spec []) pkg)
        | inr p =>
            (inr tt,
             set_patches
               (insert when_spec (patches_of pkg when_spec ++ [p])%list) pkg)
        end
    end.
Proof.
  unfold patch, resolve_when, patches_of. unfold_monad.
  destruct (parse_anonymous_spec _ (name pkg)) as [msg|when_spec]; simpl;
    [done|].
  destruct (Patch (name pkg) url_or_filename level) as [msg|p]; simpl;
    [done|].
  unfold set_patches. simpl.
  by rewrite setdefault_lookup, insert_setdefault.
Qed.

(** X3: Two patches declared under one condition are the last two of the
    condition's list, in the order of their declaration, after the patches
    the condition had; the lists of the other conditions are as they
    were. *)
Theorem patch_accumulates_in_order pkg url1 level1 url2 level2 when
    when_spec p1 p2 :
  parse_anonymous_spec (resolve_when pkg when) (name pkg) = inr when_spec ->
  Patch (name pkg) url1 level1 = inr p1 ->
  Patch (name pkg) url2 level2 = inr p2 ->
  exists pkg1 pkg2,
    patch url1 level1 when pkg = (inr tt, pkg1) /\
    patch url2 level2 when pkg1 = (inr tt, pkg2) /\
    patches_of pkg2 when_spec = (patches_of pkg when_spec ++ [p1; p2])%list /\
    forall k, k <> when_spec -> patches pkg2 !! k = patches pkg !! k.
Proof.
  intros Hwhen Hp1 Hp2. eexists _, _. split.
  { by rewrite patch_run, Hwhen, Hp1. }
  split.
  { rewrite patch_run. unfold resolve_when in *. simpl.
    by rewrite Hwhen, Hp2. }
  unfold patches_of. simpl. split.
  - rewrite !lookup_insert_eq. simpl. by rewrite <- app_assoc.
  - intros k Hk. by rewrite !lookup_insert_ne.
Qed.

(** *** Nothing is ever removed *)

Lemma grows_refl pkg : grows pkg pkg.
Proof.
  unfold grows. repeat apply conj; try reflexivity.
  intros k. exists []. by rewrite app_nil_r.
Qed.

Lemma grows_trans pkg1 pkg2 pkg3 :
  grows pkg1 pkg2 -> grows pkg2 pkg3 -> grows pkg1 pkg3.
Proof.
  intros (Hn & Hv & Hd & Hc & He & Hp & Hpa & Hpl & Hva)
         (Hn' & Hv' & Hd' & Hc' & He' & Hp' & Hpa' & Hpl' & Hva').
  unfold grows. repeat apply conj; try (etrans; eassumption).
  - intros n. etrans; [apply Hc|apply Hc'].
  - intros k. destruct (Hpl k) as [more Hmore].
    destruct (Hpl' k) as [more' Hmore'].
    exists (more ++ more')%list. by rewrite Hmore', Hmore, app_assoc.
Qed.

Ltac grows_by_insert :=
  unfold grows; simpl; repeat apply conj;
  try reflexivity; try apply dom_insert_subseteq;
  try (intros k; exists []; by rewrite app_nil_r).

Lemma grows_versions pkg v fetch :
  grows pkg (set_versions (insert v fetch) pkg).
Proof. grows_by_insert. Qed.

Lemma grows_variants pkg n v :
  grows pkg (set_variants (insert n v) pkg).
Proof. grows_by_insert. Qed.

Lemma grows_provided pkg provided_spec provider_spec :
  grows pkg (set_provided (insert provided_spec provider_spec) pkg).
Proof. grows_by_insert. Qed.

Lemma grows_extendees pkg spec x :
  grows pkg (set_extendees (insert spec x) pkg).
Proof. grows_by_insert. Qed.

Lemma grows_dependencies pkg n when_spec x :
  grows pkg
    (set_dependencies
       (insert n (<[when_spec := x]> (conditions_of pkg n))) pkg).
Proof.
  grows_by_insert. intros n'. unfold conditions_of. simpl.
  destruct (decide (n = n')) as [->|Hn].
  - rewrite lookup_insert_eq. simpl. apply dom_insert_subseteq.
  - by rewrite lookup_insert_ne.
Qed.

Lemma grows_patches_setdefault pkg when_spec :
  grows pkg (set_patches (setdefault when_spec []) pkg).
Proof.
  unfold grows. simpl. repeat apply conj; try reflexivity.
  - apply setdefault_dom.
  - intros k. exists []. rewrite app_nil_r. unfold patches_of. simpl.
    destruct (decide (when_spec = k)) as [->|Hk].
    + by rewrite setdefault_lookup.
    + by rewrite setdefault_lookup_ne.
Qed.

Lemma grows_patches_append pkg when_spec p :
  grows pkg
    (set_patches
       (insert when_spec (patches_of pkg when_spec ++ [p])%list) pkg).
Proof.
  unfold grows. simpl. repeat apply conj; try reflexivity.
  - apply dom_insert_subseteq.
  - intros k. unfold patches_of. simpl.
    destruct (decide (when_spec = k)) as [->|Hk].
    + exists [p]. by rewrite lookup_insert_eq.
    + exists []. by rewrite lookup_insert_ne, app_nil_r.
Qed.

Lemma for_each_grows {A} (body : A -> M Package unit) l pkg :
  (forall x pkg, grows pkg (snd (body x pkg))) ->
  grows pkg (snd (for_each l body pkg)).
Proof.
  intros Hbody. revert pkg. induction l as [|x l IH]; intros pkg; simpl.
  - apply grows_refl.
  - unfold bind. pose proof (Hbody x pkg) as Hx.
    destruct (body x pkg) as [[e|[]] pkg1]; simpl in *; [done|].
    eapply grows_trans; [exact Hx|apply IH].
Qed.

Lemma _depends_on_grows pkg spec when :
  grows pkg (snd (_depends_on spec when pkg)).
Proof.
  destruct (parse_anonymous_spec (resolve_when pkg when) (name pkg))
    as [msg|when_spec] eqn:Hwhen.
  { rewrite (_depends_on_when_error _ _ _ _ Hwhen). apply grows_refl. }
  destruct (Spec spec) as [msg|dep_spec] eqn:Hspec.
  { rewrite (_depends_on_spec_error _ _ _ _ _ Hwhen Hspec).
    apply grows_refl. }
  destruct (decide (name pkg = spec_name dep_spec)) as [Hname|Hname].
  { rewrite (_depends_on_self _ _ _ _ _ Hwhen Hspec Hname).
    apply grows_refl. }
  destruct (conditions_of pkg (spec_name dep_spec) !! when_spec)
    as [stored|] eqn:Hold.
  - rewrite (_depends_on_again _ _ _ _ _ _ Hwhen Hspec Hname Hold).
    apply grows_dependencies.
  - rewrite (_depends_on_new _ _ _ _ _ Hwhen Hspec Hname Hold).
    apply grows_dependencies.
Qed.

Lemma run_grows c pkg : grows pkg (snd (run c pkg)).
Proof.
  destruct c as [ver checksum kwargs|spec when|spec kwargs|specs kwargs
                |url_or_filename level when
                |variant_name default_value description]; simpl.
  - rewrite version_run.
    destruct (Version ver); [apply grows_refl|apply grows_versions].
  - apply _depends_on_grows.
  - destruct (dict_bool (extendees pkg)) eqn:Hext.
    { rewrite (extends_again _ _ _ Hext). apply grows_refl. }
    rewrite (extends_first _ _ _ Hext).
    pose proof (_depends_on_grows pkg spec (extends_when pkg kwargs)) as Hdep.
    destruct (_depends_on spec _ pkg) as [[e|[]] pkg1]; [done|].
    destruct (Spec spec) as [msg|extendee]; [done|].
    eapply grows_trans; [exact Hdep|apply grows_extendees].
  - unfold provides. unfold_monad.
    destruct (parse_anonymous_spec _ (name pkg)) as [msg|provider_spec];
      simpl; [apply grows_refl|].
    apply for_each_grows. intros string pkg0.
    destruct (parse string) as [msg|provided_specs]; simpl;
      [apply grows_refl|].
    apply for_each_grows. intros provided_spec pkg1.
    rewrite provides_body_run.
    destruct (decide _); [apply grows_refl|apply grows_provided].
  - rewrite patch_run.
    destruct (parse_anonymous_spec _ (name pkg)) as [msg|when_spec];
      [apply grows_refl|].
    destruct (Patch (name pkg) url_or_filename level) as [msg|p];
      [apply grows_patches_setdefault|apply grows_patches_append].
  - rewrite variant_run.
    destruct (re_match identifier_re variant_name);
      [apply grows_variants|apply grows_refl].
Qed.

(** X4: Whatever directives are called on a package, in whatever order, and
    whether they return or raise, nothing that was declared is removed:
    versions, dependencies and their conditions, the extendee, provided
    specs, patch conditions and variants stay, and the patches of a
    condition keep their place at the front of its list. *)
Theorem directives_never_remove calls pkg :
  grows pkg (snd (for_each calls run pkg)).
Proof. apply for_each_grows. intros c pkg0. apply run_grows. Qed.

(** *** [depends_on] *)

(** The package [depends_on] leaves when the condition and the spec parse
    and the spec is not named as the package: the constraint of that one
    condition is written. *)
Lemma _depends_on_writes pkg spec when when_spec dep_spec :
  parse_anonymous_spec (resolve_when pkg when) (name pkg) = inr when_spec ->
  Spec spec = inr dep_spec ->
  name pkg <> spec_name dep_spec ->
  exists x,
    snd (_depends_on spec when pkg)
    = set_dependencies
        (insert (spec_name dep_spec)
           (<[when_spec := x]> (conditions_of pkg (spec_name dep_spec))))
        pkg.
Proof.
  intros Hwhen Hspec Hname.
  destruct (conditions_of pkg (spec_name dep_spec) !! when_spec)
    as [stored|] eqn:Hold.
  - rewrite (_depends_on_again _ _ _ _ _ _ Hwhen Hspec Hname Hold).
    by eexists.
  - rewrite (_depends_on_new _ _ _ _ _ Hwhen Hspec Hname Hold). by eexists.
Qed.

(** X5: Two declarations of one dependency under two different conditions
    give two entries, each with the constraint declared under it: the
    second declaration does not constrain the first. *)
Theorem depends_on_distinct_conditions pkg spec1 spec2 when1 when2
    when_spec1 when_spec2 d1 d2 :
  parse_anonymous_spec (resolve_when pkg when1) (name pkg) = inr when_spec1 ->
  parse_anonymous_spec (resolve_when pkg when2) (name pkg) = inr when_spec2 ->
  when_spec1 <> when_spec2 ->
  Spec spec1 = inr d1 ->
  Spec spec2 = inr d2 ->
  spec_name d2 = spec_name d1 ->
  name pkg <> spec_name d1 ->
  conditions_of pkg (spec_name d1) !! when_spec1 = None ->
  conditions_of pkg (spec_name d1) !! when_spec2 = None ->
  exists pkg1 pkg2,
    depends_on spec1 when1 pkg = (inr tt, pkg1) /\
    depends_on spec2 when2 pkg1 = (inr tt, pkg2) /\
    conditions_of pkg2 (spec_name d1) !! when_spec1 = Some d1 /\
    conditions_of pkg2 (spec_name d1) !! when_spec2 = Some d2 /\
    size (conditions_of pkg2 (spec_name d1))
    = S (S (size (conditions_of pkg (spec_name d1)))).
Proof.
  intros Hwhen1 Hwhen2 Hne Hspec1 Hspec2 Hsame Hname Hnew1 Hnew2.
  unfold depends_on. eexists _, _. split.
  { by apply _depends_on_new. }
  set (pkg1 := set_dependencies _ pkg).
  assert (conditions_of pkg1 (spec_name d2) !! when_spec2 = None) as Hnew.
  { rewrite Hsame. subst pkg1. rewrite conditions_of_insert.
    by rewrite lookup_insert_ne. }
  assert (name pkg1 <> spec_name d2) as Hname1 by (by rewrite Hsame).
  rewrite (_depends_on_new pkg1 spec2 when2 when_spec2 d2 Hwhen2 Hspec2
             Hname1 Hnew).
  rewrite Hsame. split; [reflexivity|].
  subst pkg1. rewrite !conditions_of_insert. split; [|split].
  - rewrite lookup_insert_ne by done. apply lookup_insert_eq.
  - apply lookup_insert_eq.
  - rewrite map_size_insert_None; [|by rewrite lookup_insert_ne].
    by rewrite map_size_insert_None.
Qed.

(** X6: A [depends_on] whose condition and spec parse writes to one place:
    the constraint of that dependency under that condition.  The other
    conditions, the other dependencies and the other dictionaries are as
    they were, whether the call returns or [constrain] raises. *)
Theorem depends_on_touches_one_entry pkg spec when when_spec dep_spec :
  parse_anonymous_spec (resolve_when pkg when) (name pkg) = inr when_spec ->
  Spec spec = inr dep_spec ->
  name pkg <> spec_name dep_spec ->
  let pkg' := snd (depends_on spec when pkg) in
  (forall n w, n <> spec_name dep_spec \/ w <> when_spec ->
               conditions_of pkg' n !! w = conditions_of pkg n !! w) /\
  name pkg' = name pkg /\
  versions pkg' = versions pkg /\
  extendees pkg' = extendees pkg /\
  provided pkg' = provided pkg /\
  patches pkg' = patches pkg /\
  variants pkg' = variants pkg.
Proof.
  intros Hwhen Hspec Hname. cbv zeta. unfold depends_on.
  destruct (_depends_on_writes _ _ _ _ _ Hwhen Hspec Hname) as [x ->].
  split; [|done].
  intros n w Hnw. unfold conditions_of. simpl.
  destruct (decide (spec_name dep_spec = n)) as [<-|Hn].
  - rewrite lookup_insert_eq. simpl. destruct Hnw as [Hn|Hw]; [done|].
    by rewrite lookup_insert_ne.
  - by rewrite lookup_insert_ne.
Qed.

(** X7: A [depends_on] that raises has written nothing, unless it is
    [constrain] that raised: then the package differs by what the call to
    [constrain] left of the stored constraint, and by nothing else. *)
Theorem depends_on_raises_before_writing pkg spec when e pkg' :
  depends_on spec when pkg = (inl e, pkg') ->
  pkg' = pkg \/
  exists when_spec dep_spec stored msg,
    parse_anonymous_spec (resolve_when pkg when) (name pkg)
    = inr when_spec /\
    Spec spec = inr dep_spec /\
    conditions_of pkg (spec_name dep_spec) !! when_spec = Some stored /\
    snd (constrain stored dep_spec) = Some msg /\
    e = ResolverError msg /\
    pkg' = set_dependencies
             (insert (spec_name dep_spec)
                (<[when_spec := fst (constrain stored dep_spec)]>
                   (conditions_of pkg (spec_name dep_spec))))
             pkg.
Proof.
  unfold depends_on. intros Hrun.
  destruct (parse_anonymous_spec (resolve_when pkg when) (name pkg))
    as [msg|when_spec] eqn:Hwhen.
  { rewrite (_depends_on_when_error _ _ _ _ Hwhen) in Hrun.
    left. by simplify_eq. }
  destruct (Spec spec) as [msg|dep_spec] eqn:Hspec.
  { rewrite (_depends_on_spec_error _ _ _ _ _ Hwhen Hspec) in Hrun.
    left. by simplify_eq. }
  destruct (decide (name pkg = spec_name dep_spec)) as [Hname|Hname].
  { rewrite (_depends_on_self _ _ _ _ _ Hwhen Hspec Hname) in Hrun.
    left. by simplify_eq. }
  destruct (conditions_of pkg (spec_name dep_spec) !! when_spec)
    as [stored|] eqn:Hold.
  - rewrite (_depends_on_again _ _ _ _ _ _ Hwhen Hspec Hname Hold) in Hrun.
    destruct (snd (constrain stored dep_spec)) as [msg|] eqn:Hraised;
      [|discriminate Hrun].
    right. exists when_spec, dep_spec, stored, msg. by simplify_eq.
  - rewrite (_depends_on_new _ _ _ _ _ Hwhen Hspec Hname Hold) in Hrun.
    discriminate Hrun.
Qed.

(** *** [extends] *)

Lemma _depends_on_returned_parsed pkg spec when pkg' :
  _depends_on spec when pkg = (inr tt, pkg') ->
  exists dep_spec, Spec spec = inr dep_spec.
Proof.
  intros Hrun.
  destruct (parse_anonymous_spec (resolve_when pkg when) (name pkg))
    as [msg|when_spec] eqn:Hwhen.
  { by rewrite (_depends_on_when_error _ _ _ _ Hwhen) in Hrun. }
  destruct (Spec spec) as [msg|dep_spec] eqn:Hspec; [|by eexists].
  by rewrite (_depends_on_spec_error _ _ _ _ _ Hwhen Hspec) in Hrun.
Qed.

(** X8: On a package that extends nothing yet, [extends] raises exactly as
    [depends_on] does on the same arguments, and leaves the package that
    [depends_on] leaves: once the dependency is recorded the call cannot
    fail, and a failed call has not touched [pkg.extendees]. *)
Theorem extends_raises_as_depends_on pkg spec kwargs e pkg' :
  dict_bool (extendees pkg) = false ->
  extends spec kwargs pkg = (inl e, pkg') ->
  depends_on spec (extends_when pkg kwargs) pkg = (inl e, pkg') /\
  extendees pkg' = extendees pkg.
Proof.
  intros Hext Hrun. rewrite (extends_first _ _ _ Hext) in Hrun.
  unfold depends_on.
  destruct (_depends_on_shape pkg spec (extends_when pkg kwargs))
    as (deps & Hshape & _).
  destruct (_depends_on spec _ pkg) as [[e1|[]] pkg1] eqn:Hdep.
  - simplify_eq. split; [done|]. simpl in Hshape. by rewrite Hshape.
  - destruct (_depends_on_returned_parsed _ _ _ _ Hdep) as [dep_spec Hspec].
    rewrite Hspec in Hrun. discriminate Hrun.
Qed.

(** X9: Once a package extends another, no directive call changes
    [pkg.extendees] any more. *)
Theorem extendee_is_written_once c pkg :
  dict_bool (extendees pkg) = true ->
  extendees (snd (run c pkg)) = extendees pkg.
Proof.
  intros Hext. destruct (run_evolves c pkg) as (_ & _ & _ & [Heq|[Hnone _]]).
  - exact Heq.
  - apply dict_bool_false in Hnone. congruence.
Qed.

(** X10: However many times a definition calls [extends], and whatever else it
    calls, the package it builds has at most one extendee. *)
Theorem definition_has_at_most_one_extendee n calls :
  size (extendees (snd (define n calls))) <= 1.
Proof. apply define_invariants. Qed.

(** *** The default of [when] *)

(** X11: Leaving [when] out, or passing [None], is passing the name of the
    package, in [depends_on], in [patch] and in [extends]. *)
Theorem when_defaults_to_package_name pkg spec url_or_filename level kwargs :
  depends_on spec PyNone pkg = depends_on spec (PyStr (name pkg)) pkg /\
  patch url_or_filename level PyNone pkg
  = patch url_or_filename level (PyStr (name pkg)) pkg /\
  extends spec (<["when" := PyNone]> kwargs) pkg
  = extends spec (delete "when" kwargs) pkg /\
  extends spec (<["when" := PyStr (name pkg)]> kwargs) pkg
  = extends spec (delete "when" kwargs) pkg.
Proof.
  split; [reflexivity|]. split; [reflexivity|].
  assert (forall v,
            _depends_on spec v pkg = _depends_on spec (PyStr (name pkg)) pkg ->
            extends spec (<["when" := v]> kwargs) pkg
            = extends spec (delete "when" kwargs) pkg) as Hsame.
  { intros v Hv. destruct (dict_bool (extendees pkg)) eqn:Hext.
    { by rewrite !extends_again. }
    rewrite !extends_first by done. unfold extends_when.
    rewrite lookup_insert_eq, lookup_delete_eq. simpl.
    by rewrite Hv, delete_insert_eq, delete_delete_eq. }
  split; by apply Hsame.
Qed.

(** *** [version] *)

(** X12: [checksum] is another way to write the keyword [md5]: a call with a
    checksum is the call with [md5] set to it among the keyword arguments
    (over an [md5] that was there), and a checksum that is [None], empty or
    otherwise false is the call without checksum, what [md5] the keyword
    arguments have being kept. *)
Theorem checksum_is_the_md5_keyword pkg ver checksum kwargs :
  (py_bool checksum = true ->
   version ver checksum kwargs pkg
   = version ver PyNone (<["md5" := checksum]> kwargs) pkg) /\
  (py_bool checksum = false ->
   version ver checksum kwargs pkg = version ver PyNone kwargs pkg).
Proof. rewrite !version_run. split; by intros ->. Qed.

(** *** [provides] *)

Lemma provides_run pkg specs kwargs :
  provides specs kwargs pkg
  = match parse_anonymous_spec
            (default (PyStr (name pkg)) (kwargs !! "when")) (name pkg) with
    | inl msg => (inl (ResolverError msg), pkg)
    | inr provider_spec =>
        for_each specs (provides_string provider_spec) pkg
    end.
Proof.
  unfold provides, get. unfold bind at 1 2.
  by destruct (parse_anonymous_spec _ (name pkg)).
Qed.

Lemma provides_string_run provider_spec string pkg :
  provides_string provider_spec string pkg
  = match parse string with
    | inl msg => (inl (ResolverError msg), pkg)
    | inr provided_specs =>
        for_each provided_specs (provides_body provider_spec) pkg
    end.
Proof.
  unfold provides_string, bind, lift. by destruct (parse string).
Qed.

(** The inner loop over specs none of which is named as the package. *)
Lemma provides_body_loop_returns provider_spec l pkg :
  Forall (fun provided_spec => spec_name provided_spec <> name pkg) l ->
  exists pkg',
    for_each l (provides_body provider_spec) pkg = (inr tt, pkg') /\
    pkg' = set_provided (fun _ => provided pkg') pkg /\
    forall k,
      provided pkg' !! k
      = if decide (k ∈ l) then Some provider_spec else provided pkg !! k.
Proof.
  revert pkg. induction l as [|x l IH]; intros pkg Hl.
  - exists pkg. split; [done|]. split; [by destruct pkg|].
    intros k. by rewrite decide_False by apply not_elem_of_nil.
  - apply Forall_cons in Hl as [Hx Hl]. simpl. unfold bind.
    rewrite provides_body_run, decide_False by done.
    destruct (IH (set_provided (insert x provider_spec) pkg) Hl)
      as (pkg' & -> & Hshape & Hlookup).
    exists pkg'. split; [done|]. split; [by rewrite Hshape at 1|].
    intros k. rewrite Hlookup. simpl.
    destruct (decide (k = x)) as [->|Hk].
    + rewrite lookup_insert_eq, (decide_True (P := x ∈ x :: l)) by left.
      by destruct (decide (x ∈ l)).
    + rewrite lookup_insert_ne by done.
      destruct (decide (k ∈ l)) as [Hin|Hin].
      * by rewrite decide_True by (by right).
      * rewrite decide_False; [done|].
        by intros [?|?]%elem_of_cons.
Qed.

(** The outer loop over strings that parse to specs none of which is
    named as the package. *)
Lemma provides_strings_return provider_spec specs lists pkg :
  Forall2 (fun string provided_specs => parse string = inr provided_specs)
    specs lists ->
  Forall (fun provided_spec => spec_name provided_spec <> name pkg)
    (concat lists) ->
  exists pkg',
    for_each specs (provides_string provider_spec) pkg = (inr tt, pkg') /\
    pkg' = set_provided (fun _ => provided pkg') pkg /\
    forall k,
      provided pkg' !! k
      = if decide (k ∈ concat lists) then Some provider_spec
        else provided pkg !! k.
Proof.
  intros Hparse. revert pkg.
  induction Hparse as [|string provided_specs specs lists Hstring _ IH];
    intros pkg Hnames.
  - exists pkg. split; [done|]. split; [by destruct pkg|].
    intros k. by rewrite decide_False by apply not_elem_of_nil.
  - simpl in Hnames. apply Forall_app in Hnames as [Hfirst Hrest].
    cbn [for_each]. unfold bind at 1.
    rewrite provides_string_run, Hstring.
    destruct (provides_body_loop_returns provider_spec _ pkg Hfirst)
      as (pkg1 & -> & Hshape1 & Hlookup1).
    assert (name pkg1 = name pkg) as Hname1 by (by rewrite Hshape1).
    destruct (IH pkg1) as (pkg' & -> & Hshape & Hlookup).
    { by rewrite Hname1. }
    exists pkg'. split; [done|].
    split; [by rewrite Hshape at 1; rewrite Hshape1|].
    intros k. rewrite Hlookup, Hlookup1. simpl.
    destruct (decide (k ∈ concat lists)) as [Hin|Hin].
    + rewrite decide_True; [done|]. apply elem_of_app. by right.
    + destruct (decide (k ∈ provided_specs)) as [Hin1|Hin1].
      * rewrite decide_True; [done|]. apply elem_of_app. by left.
      * rewrite decide_False; [done|]. by intros [?|?]%elem_of_app.
Qed.

(** X13: When the condition parses, every string parses and nothing that
    comes out is named as the package, [provides] returns; every spec that
    came out is then provided under the one condition of the call, whatever
    condition it was provided under before, and the other provided specs
    and the other dictionaries are as they were. *)
Theorem provides_maps_every_spec_to_the_condition pkg specs kwargs
    provider_spec lists :
  parse_anonymous_spec
    (default (PyStr (name pkg)) (kwargs !! "when")) (name pkg)
  = inr provider_spec ->
  Forall2 (fun string provided_specs => parse string = inr provided_specs)
    specs lists ->
  Forall (fun provided_spec => spec_name provided_spec <> name pkg)
    (concat lists) ->
  exists pkg',
    provides specs kwargs pkg = (inr tt, pkg') /\
    pkg' = set_provided (fun _ => provided pkg') pkg /\
    forall k,
      provided pkg' !! k
      = if decide (k ∈ concat lists) then Some provider_spec
        else provided pkg !! k.
Proof.
  intros Hprovider Hparse Hnames. rewrite provides_run, Hprovider.
  by apply provides_strings_return.
Qed.

(** X14: A [provides] that meets a spec named as the package has already
    written what came before it, in the strings before and in the same
    string: the package it leaves provides those specs under the condition
    of the call, and the strings after are not looked at. *)
Theorem provides_raises_after_writing pkg earlier lists string specs kwargs
    provider_spec before self after :
  parse_anonymous_spec
    (default (PyStr (name pkg)) (kwargs !! "when")) (name pkg)
  = inr provider_spec ->
  Forall2 (fun string provided_specs => parse string = inr provided_specs)
    earlier lists ->
  parse string = inr (before ++ self :: after)%list ->
  Forall (fun provided_spec => spec_name provided_spec <> name pkg)
    (concat lists ++ before)%list ->
  spec_name self = name pkg ->
  exists pkg',
    provides (earlier ++ string :: specs)%list kwargs pkg
    = (inl (new_CircularReferenceError "depends_on" (name pkg)), pkg') /\
    forall k,
      provided pkg' !! k
      = if decide (k ∈ (concat lists ++ before)%list)
        then Some provider_spec
        else provided pkg !! k.
Proof.
  intros Hprovider Hearlier Hstring Hnames Hself.
  apply Forall_app in Hnames as [Hlists Hbefore].
  rewrite provides_run, Hprovider, for_each_app. unfold bind at 1.
  destruct (provides_strings_return provider_spec _ _ pkg Hearlier Hlists)
    as (pkg0 & -> & Hshape0 & Hlookup0).
  assert (name pkg0 = name pkg) as Hname0 by (by rewrite Hshape0).
  cbn [for_each]. unfold bind at 1.
  rewrite provides_string_run, Hstring, for_each_app. unfold bind at 1.
  destruct (provides_body_loop_returns provider_spec before pkg0)
    as (pkg1 & -> & Hshape1 & Hlookup1).
  { by rewrite Hname0. }
  assert (name pkg1 = name pkg) as Hname1 by (by rewrite Hshape1).
  cbn [for_each]. unfold bind at 1.
  rewrite provides_body_run, decide_True by congruence.
  exists pkg1. rewrite Hname1. split; [done|].
  intros k. rewrite Hlookup1, Hlookup0.
  destruct (decide (k ∈ before)) as [Hin|Hin].
  - rewrite decide_True; [done|]. apply elem_of_app. by right.
  - destruct (decide (k ∈ concat lists)) as [Hin0|Hin0].
    + rewrite decide_True; [done|]. apply elem_of_app. by left.
    + rewrite decide_False; [done|]. by intros [?|?]%elem_of_app.
Qed.

(** *** [variant] *)

Lemma elem_of_prefixes s p :
  p ∈ prefixes s <-> exists rest, s = p +:+ rest.
Proof.
  split; [|intros [rest ->]; apply prefixes_append].
  revert p. induction s as [|c s IH]; intros p Hp; simpl in Hp.
  - apply list_elem_of_singleton in Hp as ->. by exists EmptyString.
  - apply elem_of_cons in Hp as [->|Hp]; [by eexists|].
    apply list_elem_of_In, in_map_iff in Hp as (q & <- & Hq).
    apply list_elem_of_In, IH in Hq as [rest ->]. by exists rest.
Qed.

(** X15: [variant] returns exactly for the names that start with a string of
    [identifier_re]; for the others it raises and leaves the package as it
    was. *)
Theorem variant_checks_a_prefix pkg variant_name default_value description :
  (fst (variant variant_name default_value description pkg) = inr tt <->
   exists p rest, variant_name = p +:+ rest /\ identifier_re p = true) /\
  (fst (variant variant_name default_value description pkg) <> inr tt ->
   snd (variant variant_name default_value description pkg) = pkg).
Proof.
  rewrite variant_run.
  assert (re_match identifier_re variant_name = true <->
          exists p rest, variant_name = p +:+ rest /\ identifier_re p = true)
    as Hmatch.
  { unfold re_match. rewrite existsb_exists. split.
    - intros (p & Hp & Hid).
      apply list_elem_of_In, elem_of_prefixes in Hp as [rest ->]. eauto.
    - intros (p & rest & -> & Hid). exists p. split; [|done].
      apply list_elem_of_In, prefixes_append. }
  destruct (re_match identifier_re variant_name) eqn:Hre; simpl.
  - split; [|done]. split; [intros _; by apply Hmatch|done].
  - split; [|done]. split; [done|].
    intros Hp. apply Hmatch in Hp. discriminate Hp.
Qed.

End DirectiveOutcome.

(** ** [strip] *)

Lemma lstrip_starts s : starts_with_space (lstrip s) = false.
Proof.
  induction s as [|c s IH]; simpl; [done|].
  by destruct (is_space c) eqn:Hc; simpl.
Qed.

Lemma rstrip_ends s : ends_with_space (rstrip s) = false.
Proof.
  induction s as [|c s IH]; simpl; [done|].
  destruct (rstrip s) as [|c' s'] eqn:Hs.
  - by destruct (is_space c) eqn:Hc; simpl.
  - exact IH.
Qed.

Lemma rstrip_starts s :
  starts_with_space s = false -> starts_with_space (rstrip s) = false.
Proof.
  destruct s as [|c s]; simpl; [done|]. intros Hc.
  destruct (rstrip s); [by rewrite Hc|done].
Qed.

Lemma lstrip_id s : starts_with_space s = false -> lstrip s = s.
Proof. destruct s as [|c s]; simpl; [done|]. by intros ->. Qed.

Lemma rstrip_id s : ends_with_space s = false -> rstrip s = s.
Proof.
  induction s as [|c s IH]; [done|]. intros Hs.
  destruct s as [|c' s'].
  - simpl in *. by rewrite Hs.
  - change (ends_with_space (String c' s') = false) in Hs.
    change (rstrip (String c (String c' s')))
      with (match rstrip (String c' s') with
            | EmptyString =>
                if is_space c then EmptyString else String c EmptyString
            | r' => String c r'
            end).
    by rewrite (IH Hs).
Qed.

(** What [strip] returns neither starts nor ends with a character it
    removes, and stripping it again changes nothing. *)
Lemma strip_stripped s :
  starts_with_space (strip s) = false /\
  ends_with_space (strip s) = false /\
  strip (strip s) = strip s.
Proof.
  unfold strip.
  assert (starts_with_space (rstrip (lstrip s)) = false) as Hstart
    by apply rstrip_starts, lstrip_starts.
  split; [done|]. split; [apply rstrip_ends|].
  rewrite (lstrip_id _ Hstart). apply rstrip_id, rstrip_ends.
Qed.

(** X16: The description [variant] stores has no white space at either end,
    whatever the description it was given. *)
Theorem variant_description_is_stripped `{R : Resolver} (pkg : Package)
    variant_name default_value description pkg' :
  variant variant_name default_value description pkg = (inr tt, pkg') ->
  exists v,
    variants pkg' !! variant_name = Some v /\
    variant_default v = py_bool default_value /\
    starts_with_space (variant_description v) = false /\
    ends_with_space (variant_description v) = false /\
    variant_description v = strip description.
Proof.
  rewrite variant_run.
  destruct (re_match identifier_re variant_name); [|discriminate].
  intros [= <-]. eexists. split; [simpl; apply lookup_insert_eq|].
  simpl. split; [done|]. split; [apply strip_stripped|].
  split; [apply strip_stripped|done].
Qed.

(** ** The further properties on concrete packages *)

(** On an object without attributes, the registry of the module gives the
    dictionaries [versions] and [extendees]. *)
Lemma ensure_dicts_returns_witness :
  exists pkg' : gmap string (attr (gmap string pyval)),
    ensure_dicts (fun _ => "pkg") (snd (register_module ∅)) ∅ = (inr tt, pkg') /\
    pkg' !! "versions" = Some (AttrDict ∅) /\
    pkg' !! "extendees" = Some (AttrDict ∅).
Proof.
  destruct (ensure_dicts_returns (D := gmap string pyval) (fun _ => "pkg")
              (snd (register_module ∅)) ∅)
    as (pkg' & Hrun & _ & Hnew & _).
  - vm_compute. reflexivity.
  - intros f v _. rewrite lookup_empty. discriminate.
  - exists pkg'. split; [exact Hrun|].
    split; (apply Hnew; [|apply lookup_empty]).
    + apply (elem_of_required_dicts _ "version"
               {| dicts := [PyStr "versions"] |}).
      * vm_compute. reflexivity.
      * apply list_elem_of_here.
    + apply (elem_of_required_dicts _ "extends"
               {| dicts := [PyStr "extendees"; PyStr "dependencies"] |}).
      * vm_compute. reflexivity.
      * apply list_elem_of_here.
Defined.

Section FurtherExamples.
Local Existing Instance concrete_resolver.

Local Abbreviation Package := (@Package concrete_resolver).
Local Abbreviation new_package := (@new_package concrete_resolver).

(** [patch("fix1.patch")] then [patch("fix2.patch")], without [when]. *)
Lemma patch_accumulates_in_order_witness :
  exists pkg1 pkg2 : Package,
    patch "fix1.patch" 1 PyNone (new_package "libelf") = (inr tt, pkg1) /\
    patch "fix2.patch" 1 PyNone pkg1 = (inr tt, pkg2) /\
    patches_of pkg2 ("libelf", [])
    = [("libelf", "fix1.patch", 1%Z); ("libelf", "fix2.patch", 1%Z)].
Proof.
  destruct (patch_accumulates_in_order (new_package "libelf")
              "fix1.patch" 1 "fix2.patch" 1 PyNone ("libelf", [])
              ("libelf", "fix1.patch", 1%Z) ("libelf", "fix2.patch", 1%Z))
    as (pkg1 & pkg2 & H1 & H2 & Hlist & _); try reflexivity.
  exists pkg1, pkg2. split; [exact H1|]. split; [exact H2|exact Hlist].
Defined.

(** [depends_on("foo@1.0", when="@1")] then
    [depends_on("foo@2.0", when="@2")], in package [bar]. *)
Lemma depends_on_distinct_conditions_witness :
  exists pkg1 pkg2 : Package,
    depends_on "foo@1.0" (PyStr "@1") (new_package "bar") = (inr tt, pkg1) /\
    depends_on "foo@2.0" (PyStr "@2") pkg1 = (inr tt, pkg2) /\
    conditions_of pkg2 "foo" !! ("bar", ["@1"]) = Some ("foo", ["@1.0"]) /\
    conditions_of pkg2 "foo" !! ("bar", ["@2"]) = Some ("foo", ["@2.0"]) /\
    size (conditions_of pkg2 "foo")
    = S (S (size (conditions_of (new_package "bar") "foo"))).
Proof.
  apply (depends_on_distinct_conditions (new_package "bar")
           "foo@1.0" "foo@2.0" (PyStr "@1") (PyStr "@2")
           ("bar", ["@1"]) ("bar", ["@2"])
           ("foo", ["@1.0"]) ("foo", ["@2.0"])); try reflexivity;
    discriminate.
Defined.

Lemma depends_on_touches_one_entry_witness :
  let pkg' := snd (depends_on "python" PyNone numpy) in
  conditions_of pkg' "python" !! ("py-numpy", ["@1.9"])
  = conditions_of numpy "python" !! ("py-numpy", ["@1.9"]) /\
  extendees pkg' = extendees numpy.
Proof.
  destruct (depends_on_touches_one_entry numpy "python" PyNone
              ("py-numpy", []) ("python", []))
    as (Hother & _ & _ & Hext & _); try reflexivity.
  { discriminate. }
  split; [|exact Hext]. apply Hother. right. discriminate.
Defined.

Lemma depends_on_raises_before_writing_witness :
  snd (depends_on "bar@1.0" PyNone (new_package "bar")) = new_package "bar".
Proof.
  destruct (depends_on_raises_before_writing (new_package "bar") "bar@1.0"
              PyNone (new_CircularReferenceError "depends_on" "bar")
              (new_package "bar") depends_on_bar_on_bar)
    as [Hsame|(when_spec & dep_spec & stored & msg & _ & _ & _ & _ & He & _)].
  - rewrite depends_on_bar_on_bar. exact Hsame.
  - discriminate He.
Defined.

(** [extends("mpich")] in package [mpich]. *)
Lemma mpich_extends_mpich :
  extends "mpich" ∅ (new_package "mpich")
  = (inl (new_CircularReferenceError "depends_on" "mpich"),
     new_package "mpich").
Proof.
  rewrite extends_first by reflexivity.
  by rewrite (_depends_on_self (new_package "mpich") "mpich" _
                ("mpich", []) ("mpich", [])).
Defined.

Lemma extends_raises_as_depends_on_witness :
  depends_on "mpich" (PyStr "mpich") (new_package "mpich")
  = (inl (new_CircularReferenceError "depends_on" "mpich"),
     new_package "mpich").
Proof.
  destruct (extends_raises_as_depends_on (new_package "mpich") "mpich" ∅
              (new_CircularReferenceError "depends_on" "mpich")
              (new_package "mpich")) as [Hdep _].
  - reflexivity.
  - exact mpich_extends_mpich.
  - exact Hdep.
Defined.

Lemma extendee_is_written_once_witness :
  extendees (snd (run (call_extends "perl" ∅) numpy)) = extendees numpy.
Proof. apply extendee_is_written_once, numpy_extendees. Defined.

(** [version("1.0", checksum="abc123")] and
    [version("1.0", checksum="", md5="abc123")]. *)
Lemma checksum_is_the_md5_keyword_witness :
  version "1.0" (PyStr "abc123") ∅ (new_package "libelf")
  = version "1.0" PyNone {[ "md5" := PyStr "abc123" ]} (new_package "libelf")
  /\
  version "1.0" (PyStr "") {[ "md5" := PyStr "abc123" ]}
    (new_package "libelf")
  = version "1.0" PyNone {[ "md5" := PyStr "abc123" ]} (new_package "libelf").
Proof.
  split.
  - apply (checksum_is_the_md5_keyword (new_package "libelf") "1.0"
             (PyStr "abc123") ∅). reflexivity.
  - apply (checksum_is_the_md5_keyword (new_package "libelf") "1.0"
             (PyStr "") {[ "md5" := PyStr "abc123" ]}). reflexivity.
Defined.

(** [provides("mpi@2", "blas")] in package [mpich]. *)
Lemma provides_maps_every_spec_to_the_condition_witness :
  exists pkg' : Package,
    provides ["mpi@2"; "blas"] ∅ (new_package "mpich") = (inr tt, pkg') /\
    provided pkg' !! ("mpi", ["@2"]) = Some ("mpich", []) /\
    provided pkg' !! ("blas", []) = Some ("mpich", []).
Proof.
  destruct (provides_maps_every_spec_to_the_condition (new_package "mpich")
              ["mpi@2"; "blas"] ∅ ("mpich", [])
              [[("mpi", ["@2"])]; [("blas", [])]])
    as (pkg' & Hrun & _ & Hlookup).
  - reflexivity.
  - repeat constructor.
  - repeat constructor; discriminate.
  - exists pkg'. split; [exact Hrun|].
    split; rewrite Hlookup; apply decide_True.
    + apply list_elem_of_here.
    + apply list_elem_of_further, list_elem_of_here.
Defined.

(** [provides("mpi", "mpich", "blas")] in package [mpich]. *)
Lemma provides_raises_after_writing_witness :
  exists pkg' : Package,
    provides ["mpi"; "mpich"; "blas"] ∅ (new_package "mpich")
    = (inl (new_CircularReferenceError "depends_on" "mpich"), pkg') /\
    provided pkg' !! ("mpi", []) = Some ("mpich", []) /\
    provided pkg' !! ("blas", []) = None.
Proof.
  destruct (provides_raises_after_writing (new_package "mpich")
              ["mpi"] [[("mpi", [])]] "mpich" ["blas"] ∅ ("mpich", [])
              [] ("mpich", []) [])
    as (pkg' & Hrun & Hlookup).
  - reflexivity.
  - repeat constructor.
  - reflexivity.
  - repeat constructor; discriminate.
  - reflexivity.
  - exists pkg'. split; [exact Hrun|]. split; rewrite Hlookup.
    + apply decide_True, list_elem_of_here.
    + rewrite decide_False; [apply lookup_empty|].
      intros Hin. apply list_elem_of_singleton in Hin. discriminate Hin.
Defined.

(** [variant("shared libs")] and [variant("+shared")]. *)
Lemma variant_checks_a_prefix_witness :
  fst (variant "shared libs" (PyBool false) "" (new_package "libelf"))
  = inr tt /\
  snd (variant "+shared" (PyBool false) "" (new_package "libelf"))
  = new_package "libelf".
Proof.
  split.
  - apply (variant_checks_a_prefix (new_package "libelf") "shared libs").
    exists "shared", " libs". split; reflexivity.
  - apply (variant_checks_a_prefix (new_package "libelf") "+shared").
    rewrite variant_run. discriminate.
Defined.

(** [variant("shared", default=1, description="  Build shared libs  ")] *)
Lemma variant_description_is_stripped_witness :
  exists v,
    variants
      (snd (variant "shared" (PyInt 1) "  Build shared libs  "
              (new_package "libelf")))
    !! "shared" = Some v /\
    variant_default v = true /\
    variant_description v = "Build shared libs".
Proof.
  destruct (variant_description_is_stripped (new_package "libelf")
              "shared" (PyInt 1) "  Build shared libs  "
              (snd (variant "shared" (PyInt 1) "  Build shared libs  "
                      (new_package "libelf"))))
    as (v & Hv & Hdefault & _ & _ & Hdescription).
  - by rewrite variant_run.
  - exists v. split; [exact Hv|]. split; [exact Hdefault|exact Hdescription].
Defined.

End FurtherExamples.
